(** * Boyer-Moore exact matching and pigeonhole approximate matching

    A shallow embedding of
    [courses/course_3_algorithms_for_dna_seq/algorithms_for_dna_sequencing_week_2.py]
    (classes [BoyerMooreExact], [SubseqIndex], [PigeonHoleApproximateMatching])
    and of
    [courses/L02_algorithms_for_dna_sequencing/algorithms_for_dna_sequencing_week_2.py]
    (class [BoyerMoore]), followed by the properties the specification
    states about them.

    Conventions.  A Python [str] is a [list ascii]; [len], offsets and
    counters are [nat] (they are never negative in this code), and every
    place where the source subtracts two lengths is computed in [Z], so
    that a negative difference behaves as it does in Python.  A [set] of
    offsets is a [gset nat]. *)

From Stdlib Require Import ZArith List Ascii String Lia Bool Arith Permutation.
From stdpp Require Import base decidable list strings gmap sets sorting.

Import ListNotations.
Local Open Scope nat_scope.

(** ** Python primitives *)

Module Py.

Definition str := list ascii.

(** A string literal. *)
Definition lit (s : string) : str := list_ascii_of_string s.

(** [s[i]] for an index [0 <= i < len(s)].  Every index the embedded
    code computes is in range (see [index_in_range_scan] and the guards
    of the approximate matchers), so the default is never read. *)
Definition index (s : str) (i : nat) : ascii := nth i s "000"%char.

(** [s[a:b]] for [0 <= a] and [0 <= b]: Python clips both bounds to
    [len(s)] and yields the empty string when [b <= a]. *)
Definition substr (s : str) (a b : nat) : str := firstn (b - a) (skipn a s).

(** [s[a:]] for [0 <= a]. *)
Definition suffix_from (s : str) (a : nat) : str := skipn a s.

(** Normalisation of one slice bound for a positive step, as in
    CPython's [PySlice_AdjustIndices]: a negative bound counts from the
    end, and the result is clipped to [0, len]. *)
Definition adjust_index (len i : Z) : Z :=
  if (i <? 0)%Z then Z.max 0 (i + len) else Z.min i len.

(** [s[start:stop:step]] for [step >= 1]; [start = None] is an omitted
    lower bound.  (Python raises [ValueError] for [step = 0] and walks
    backwards for [step < 0]; neither is modelled.) *)
Definition slice_step (s : str) (start : option Z) (stop step : Z) : str :=
  let len := Z.of_nat (length s) in
  let a := match start with Some i => adjust_index len i | None => 0%Z end in
  let b := adjust_index len stop in
  let n := if (a <? b)%Z then ((b - a - 1) / step + 1)%Z else 0%Z in
  map (fun j => index s (Z.to_nat (a + Z.of_nat j * step))) (seq 0 (Z.to_nat n)).

(** [range(n)] for a Python int [n]: empty when [n <= 0]. *)
Definition range (n : Z) : list nat := seq 0 (Z.to_nat n).

(** [int(round(a / b))] for [a >= 0], [b >= 1]: Python 3 rounds the
    quotient to the nearest integer and a tie to the even neighbour.
    (The quotient is a double in Python; for lengths below 2^52 its
    rounding cannot create or remove a tie, so the exact rational
    is used.) *)
Definition round_div (a b : nat) : nat :=
  let q := a / b in
  let r := a mod b in
  if 2 * r <? b then q
  else if b <? 2 * r then q + 1
  else if Nat.even q then q else q + 1.

(** Comparison of two strings: code point by code point, a proper
    prefix first. *)
Fixpoint str_compare (a b : str) : comparison :=
  match a, b with
  | [], [] => Eq
  | [], _ :: _ => Lt
  | _ :: _, [] => Gt
  | x :: a', y :: b' =>
      match Ascii.compare x y with
      | Eq => str_compare a' b'
      | c => c
      end
  end.

(** Comparison of two tuples [(str, int)]: first components first. *)
Definition tuple_compare (e1 e2 : str * Z) : comparison :=
  match str_compare e1.1 e2.1 with
  | Eq => Z.compare e1.2 e2.2
  | c => c
  end.

Definition tuple_ltb (e1 e2 : str * Z) : bool :=
  match tuple_compare e1 e2 with Lt => true | _ => false end.

Definition tuple_le (e1 e2 : str * Z) : Prop := tuple_compare e1 e2 <> Gt.

(** [bisect.bisect_left(a, x)]: the loop of the standard library,
    [while lo < hi: mid = (lo+hi)//2; if a[mid] < x: lo = mid+1 else: hi = mid].
    The interval at least halves in every round, so [hi - lo] rounds
    are enough; [fuel] is that bound. *)
Fixpoint bisect_loop {A X} (lt : A -> X -> bool) (d : A) (a : list A) (x : X)
         (fuel lo hi : nat) : nat :=
  match fuel with
  | 0 => lo
  | S fuel' =>
      if lo <? hi then
        let mid := (lo + hi) / 2 in
        if lt (nth mid a d) x then bisect_loop lt d a x fuel' (mid + 1) hi
        else bisect_loop lt d a x fuel' lo mid
      else lo
  end.

Definition bisect_left {A X} (lt : A -> X -> bool) (d : A) (a : list A) (x : X) : nat :=
  bisect_loop lt d a x (length a) 0 (length a).

(** [sorted(s)] for a set of ints. *)
Definition sorted (s : gset nat) : list nat := merge_sort le (elements s).

End Py.

(** ** Errors

    The source raises no exception of its own.  The two error classes are
    the ones the specification names; [AlphabetViolation] is raised by the
    preprocessing constructor only. *)

Inductive exn : Type :=
  | InvalidInput
  | AlphabetViolation.

Inductive result (A : Type) : Type :=
  | Ok (a : A)
  | Raise (e : exn).
Arguments Ok {A} a.
Arguments Raise {A} e.

#[global] Instance result_ret : MRet result := fun A a => Ok a.

#[global] Instance result_bind : MBind result := fun A B f r =>
  match r with
  | Ok a => f a
  | Raise e => Raise e
  end.

(** ** The preprocessing interface

    [BoyerMooreExact] and [BoyerMoore] use three methods of the
    preprocessing object [p_bm]. *)

Record BoyerMoorePreprocessing : Type := {
  bad_character_rule : nat -> ascii -> nat;
  good_suffix_rule : nat -> nat;
  match_skip : nat
}.

(** One entry of the local list [skipped_alignments]. *)
Record skipped_alignment : Type := {
  skipped_shift : nat;
  skipped_bad_char_shift : nat;
  skipped_good_suffix_shift : nat
}.

(** ** The scanning loop shared by both matchers *)

Section Alignment.

Variable p : Py.str.
Variable p_bm : BoyerMoorePreprocessing.
Variable t : Py.str.

(** [for j in range(len(p) - 1, -1, -1)]: [n] positions are still to
    be compared, the next one is [j = n - 1].  Returns the position of
    the first mismatch, if any, and the comparison counter. *)
Fixpoint compare_right_to_left (start n cmps : nat) : option nat * nat :=
  match n with
  | 0 => (None, cmps)
  | S j =>
      let cmps := cmps + 1 in
      let k := start + j in
      if Ascii.eqb (Py.index p j) (Py.index t k)
      then compare_right_to_left start j cmps
      else (Some j, cmps)
  end.

(** The variables both loops keep. *)
Record scan_state : Type := {
  occurrences : list nat;
  skipped_alignments : list skipped_alignment;
  num_char_comparisons : nat;
  alignment_start_idx : nat;
  num_alignments_tried : nat
}.

(** The outcome of one alignment: [shift] and the updated lists and
    counter (the statements from [shift = 1] to [shift = max(shift, skip_gs)]). *)
Record aligned : Type := {
  a_shift : nat;
  a_occurrences : list nat;
  a_skipped : list skipped_alignment;
  a_comparisons : nat
}.

Definition align (s : scan_state) : aligned :=
  let start := alignment_start_idx s in
  let shift := 1 in
  let '(mismatch, cmps) :=
    compare_right_to_left start (length p) (num_char_comparisons s) in
  match mismatch with
  | Some j =>
      let k := start + j in
      let bad_char_shift := bad_character_rule p_bm j (Py.index t k) in
      let good_suffix_shift := good_suffix_rule p_bm j in
      let shift := Nat.max bad_char_shift (Nat.max good_suffix_shift shift) in
      let skipped :=
        if 1 <? shift then
          skipped_alignments s ++
            [{| skipped_shift := shift - 1;
                skipped_bad_char_shift :=
                  if 0 <? bad_char_shift then bad_char_shift - 1 else 0;
                skipped_good_suffix_shift :=
                  if 0 <? good_suffix_shift then good_suffix_shift - 1 else 0 |}]
        else skipped_alignments s in
      {| a_shift := shift; a_occurrences := occurrences s;
         a_skipped := skipped; a_comparisons := cmps |}
  | None =>
      let skip_gs := match_skip p_bm in
      let shift := Nat.max shift skip_gs in
      {| a_shift := shift; a_occurrences := occurrences s ++ [start];
         a_skipped := skipped_alignments s; a_comparisons := cmps |}
  end.

(** [while alignment_start_idx <= (len(t) - len(self.p))] *)
Definition loop_cond (s : scan_state) : bool :=
  (Z.of_nat (alignment_start_idx s) <=? Z.of_nat (length t) - Z.of_nat (length p))%Z.

Definition init_state : scan_state :=
  {| occurrences := []; skipped_alignments := []; num_char_comparisons := 0;
     alignment_start_idx := 0; num_alignments_tried := 0 |}.

(** The while loop over a body.  [fuel] bounds the number of rounds;
    [while_loop_runs] shows that [S (length t)] rounds always reach the
    exit, since every round moves the alignment forward. *)
Fixpoint while_loop (body : scan_state -> scan_state) (fuel : nat)
         (s : scan_state) : scan_state :=
  match fuel with
  | 0 => s
  | S fuel' => if loop_cond s then while_loop body fuel' (body s) else s
  end.

(** *** [BoyerMooreExact.query], course 3 *)

Definition query_body (s : scan_state) : scan_state :=
  let tried := num_alignments_tried s + 1 in
  let a := align s in
  {| occurrences := a_occurrences a;
     skipped_alignments := a_skipped a;
     num_char_comparisons := a_comparisons a;
     alignment_start_idx := alignment_start_idx s + a_shift a;
     num_alignments_tried := tried |}.

Definition query_scan : scan_state :=
  while_loop query_body (S (length t)) init_state.

Definition query_result : list nat * nat * nat :=
  let s := query_scan in
  (occurrences s, num_alignments_tried s, num_char_comparisons s).

(** *** [BoyerMoore.boyer_moore_alignment], L02

    The same loop without the counter; [num_alignments_tried] is
    assigned once, after the loop, from [alignment_start_idx]. *)

Definition alignment_body (s : scan_state) : scan_state :=
  let a := align s in
  {| occurrences := a_occurrences a;
     skipped_alignments := a_skipped a;
     num_char_comparisons := a_comparisons a;
     alignment_start_idx := alignment_start_idx s + a_shift a;
     num_alignments_tried := num_alignments_tried s |}.

Definition alignment_scan : scan_state :=
  while_loop alignment_body (S (length t)) init_state.

Definition alignment_result : list nat * nat * nat :=
  let s := alignment_scan in
  let num_alignments_tried := alignment_start_idx s in
  (occurrences s, num_alignments_tried, num_char_comparisons s).

End Alignment.


(** ** The preprocessing tables

    The module [utils/boyer_moore_preproc.py], which defines the class
    [BoyerMoorePreprocessing], is not among the sources; its three lookups
    and its constructor follow the specification (sections 3, 4.1, 4.2
    and 7). *)

(** Modelled from the spec: the rightmost position [i < j] with
    [p[i] = c], if there is one (bad-character table, section 3). *)
Fixpoint rightmost_before (p : Py.str) (j : nat) (c : ascii) : option nat :=
  match j with
  | 0 => None
  | S i => if Ascii.eqb (Py.index p i) c then Some i else rightmost_before p i c
  end.

(** Modelled from the spec: the bad-character lookup of the missing
    preprocessing class, "j minus the rightmost position < j where c
    occurs in the pattern, or j+1 if c never occurs to the left". *)
Definition bad_character_shift (p : Py.str) (j : nat) (c : ascii) : nat :=
  match rightmost_before p j c with
  | Some i => j - i
  | None => j + 1
  end.

(** Modelled from the spec: a shift [s] is acceptable after a mismatch at
    [j] when the matched suffix [p[j+1..)] reappears [s] places to the
    left, as far as it stays inside the pattern (so that at least its
    border does), and is not preceded there by the mismatching character
    [p[j]] (sections 3 and 4.2). *)
Definition good_suffix_ok (p : Py.str) (j s : nat) : bool :=
  forallb (fun k => if s <=? k then Ascii.eqb (Py.index p (k - s)) (Py.index p k) else true)
          (seq (j + 1) (length p - (j + 1)))
  && (if s <=? j then negb (Ascii.eqb (Py.index p (j - s)) (Py.index p j)) else true).

(** Modelled from the spec: the good-suffix lookup of the missing
    preprocessing class, "the minimal shift >= 1 guaranteeing the
    previously-matched suffix reappears at the new alignment (or its
    border does)". *)
Definition good_suffix_shift (p : Py.str) (j : nat) : nat :=
  match find (good_suffix_ok p j) (seq 1 (length p)) with
  | Some s => s
  | None => length p
  end.

(** Modelled from the spec: the length of the longest proper border of
    the pattern, a prefix shorter than the pattern that is also a suffix
    (section 4.2). *)
Definition longest_proper_border (p : Py.str) : nat :=
  match find (fun b => bool_decide (firstn b p = skipn (length p - b) p))
             (rev (seq 0 (length p))) with
  | Some b => b
  | None => 0
  end.

(** Modelled from the spec: [match_skip()] of the missing preprocessing
    class, "p minus the length of the longest proper border". *)
Definition match_skip_of (p : Py.str) : nat :=
  length p - longest_proper_border p.

(** Modelled from the spec: the three lookups of the missing
    preprocessing class for the pattern [p], "built once per pattern;
    read-only afterward". *)
Definition tables_of (p : Py.str) : BoyerMoorePreprocessing :=
  {| bad_character_rule := bad_character_shift p;
     good_suffix_rule := good_suffix_shift p;
     match_skip := match_skip_of p |}.

(** Modelled from the spec: the constructor of the missing preprocessing
    class.  A pattern symbol outside the alphabet fails with
    [AlphabetViolation] (sections 3 and 7); otherwise the three lookups
    are the tables of [p]. *)
Definition BoyerMoorePreprocessing_init (p alphabet : Py.str)
  : result BoyerMoorePreprocessing :=
  if forallb (fun c => bool_decide (c ∈ alphabet)) p then Ok (tables_of p)
  else Raise AlphabetViolation.


(** ** [BoyerMooreExact], course 3 *)

Record BoyerMooreExact : Type := {
  bme_p : Py.str;
  bme_p_bm : BoyerMoorePreprocessing
}.

(** [__init__(self, p, p_bm=None, alphabet='ACGT')] *)
Definition BoyerMooreExact_init (p : Py.str) (p_bm : option BoyerMoorePreprocessing)
           (alphabet : Py.str) : result BoyerMooreExact :=
  p_bm ← match p_bm with
         | Some tables => Ok tables
         | None => BoyerMoorePreprocessing_init p alphabet
         end;
  mret {| bme_p := p; bme_p_bm := p_bm |}.

Definition query (self : BoyerMooreExact) (t : Py.str) : list nat * nat * nat :=
  query_result (bme_p self) (bme_p_bm self) t.

Definition get_occurrences (self : BoyerMooreExact) (t : Py.str) : list nat :=
  (query self t).1.1.

(** The default alphabet of both constructors. *)
Definition ACGT : Py.str := Py.lit "ACGT".

(** The exact matcher as its callers use it: construct, then query. *)
Definition exact_match (p t alphabet : Py.str) : result (list nat * nat * nat) :=
  matcher ← BoyerMooreExact_init p None alphabet;
  mret (query matcher t).

(** ** [BoyerMoore], L02 *)

Record BoyerMoore : Type := {
  bm_p : Py.str;
  bm_p_bm : BoyerMoorePreprocessing
}.

Definition boyer_moore_alignment (self : BoyerMoore) (t : Py.str) : list nat * nat * nat :=
  alignment_result (bm_p self) (bm_p_bm self) t.

(** ** [SubseqIndex] *)

(** The order [list.sort] uses on the index entries [(subseq, offset)]. *)
Definition entry_key (e : Py.str * nat) : Py.str * Z := (e.1, Z.of_nat e.2).

Definition entry_le (e1 e2 : Py.str * nat) : Prop :=
  Py.tuple_le (entry_key e1) (entry_key e2).

#[global] Instance entry_le_dec e1 e2 : Decision (entry_le e1 e2).
Proof. unfold entry_le, Py.tuple_le. apply _. Defined.

Record SubseqIndex : Type := {
  si_t : Py.str;
  si_k : Z;
  si_ival : Z;
  si_index : list (Py.str * nat);
  si_span : Z
}.

(** [__init__(self, t, k, ival=1)] *)
Definition SubseqIndex_init (t : Py.str) (k ival : Z) : SubseqIndex :=
  let span := (1 + ival * (k - 1))%Z in
  let index :=
    map (fun i => (Py.slice_step t (Some (Z.of_nat i)) (Z.of_nat i + span) ival, i))
        (Py.range (Z.of_nat (length t) - span + 1)) in
  {| si_t := t; si_k := k; si_ival := ival;
     si_index := merge_sort entry_le index; si_span := span |}.

(** The collecting loop of [get_hits], started at position [i]:
    [entries] is [self.index[i:]]. *)
Fixpoint collect_hits (entries : list (Py.str * nat)) (subseq : Py.str) : list nat :=
  match entries with
  | [] => []
  | e :: rest =>
      if decide (e.1 = subseq) then e.2 :: collect_hits rest subseq else []
  end.

Definition get_hits (self : SubseqIndex) (p : Py.str) : list nat :=
  let subseq := Py.slice_step p None (si_span self) (si_ival self) in
  let i := Py.bisect_left (fun e x => Py.tuple_ltb (entry_key e) x) ([], 0)
                          (si_index self) (subseq, (-1)%Z) in
  collect_hits (skipn i (si_index self)) subseq.

Definition si_get_occurrences (self : SubseqIndex) (p : Py.str) : list nat :=
  get_hits self p.

(** ** [PigeonHoleApproximateMatching] *)

(** [for j in js: if p[j] != t[base + j]: mismatches += 1; if mismatches > m: break] *)
Fixpoint count_mismatches (p t : Py.str) (m base : nat) (js : list nat)
         (mismatches : nat) : nat :=
  match js with
  | [] => mismatches
  | j :: js' =>
      if Ascii.eqb (Py.index p j) (Py.index t (base + j))
      then count_mismatches p t m base js' mismatches
      else
        let mismatches := mismatches + 1 in
        if m <? mismatches then mismatches
        else count_mismatches p t m base js' mismatches
  end.

(** The body of [for match in occurrences_] in [query_bm]. *)
Definition bm_check (p t : Py.str) (m partition_start partition_end : nat)
           (acc : gset nat * nat) (match_ : nat) : gset nat * nat :=
  let '(occurrences, total_hits) := acc in
  let total_hits := total_hits + 1 in
  if (match_ <? partition_start)
     || (length t <? match_ - partition_start + length p)
  then (occurrences, total_hits)
  else
    let mismatches := 0 in
    let mismatches :=
      count_mismatches p t m (match_ - partition_start)
                       (seq 0 partition_start) mismatches in
    let mismatches :=
      count_mismatches p t m (match_ - partition_start)
                       (seq partition_end (length p - partition_end)) mismatches in
    if mismatches <=? m
    then ({[ match_ - partition_start ]} ∪ occurrences, total_hits)
    else (occurrences, total_hits).

(** [for i in range(m + 1)] of [query_bm]; an empty partition leaves the loop. *)
Fixpoint bm_partitions (p t : Py.str) (m : nat) (alphabet : Py.str)
         (partition_length : nat) (rounds : list nat) (acc : gset nat * nat)
  : result (gset nat * nat) :=
  match rounds with
  | [] => Ok acc
  | i :: rounds' =>
      let partition_start := i * partition_length in
      let partition_end := Nat.min (partition_start + partition_length) (length p) in
      let sub_p := Py.substr p partition_start partition_end in
      if decide (sub_p = []) then Ok acc
      else
        matcher ← BoyerMooreExact_init sub_p None alphabet;
        let occurrences_ := get_occurrences matcher t in
        let acc := fold_left (bm_check p t m partition_start partition_end)
                             occurrences_ acc in
        bm_partitions p t m alphabet partition_length rounds' acc
  end.

Definition query_bm (p t : Py.str) (m : nat) (alphabet : Py.str)
  : result (list nat * nat) :=
  let partition_length := Py.round_div (length p) (m + 1) in
  acc ← bm_partitions p t m alphabet partition_length
                      (Py.range (Z.of_nat m + 1)) (∅, 0);
  mret (Py.sorted acc.1, acc.2).

(** The variables the seed loop of [query_subseq_index] threads: the
    name [m] is the mismatch budget on entry and is rebound by
    [for m in matches]. *)
Record seed_state : Type := {
  ss_m : nat;
  ss_all_matches : gset nat;
  ss_idx_hits : nat
}.

(** The body of [for m in matches] in [query_subseq_index]. *)
Definition seed_check (p t : Py.str) (start : nat) (s : seed_state) (hit : nat)
  : seed_state :=
  let m := hit in
  let idx_hits := ss_idx_hits s + 1 in
  if (m <? start) || (length t <? m - start + length p)
  then {| ss_m := m; ss_all_matches := ss_all_matches s; ss_idx_hits := idx_hits |}
  else
    let mismatches := 0 in
    let mismatches :=
      count_mismatches p t m (m - start) (seq 0 (length p)) mismatches in
    if mismatches <=? m
    then {| ss_m := m; ss_all_matches := {[ m - start ]} ∪ ss_all_matches s;
            ss_idx_hits := idx_hits |}
    else {| ss_m := m; ss_all_matches := ss_all_matches s; ss_idx_hits := idx_hits |}.

(** The body of [for i in range(m + 1)] in [query_subseq_index]. *)
Definition seed_round (p t : Py.str) (p_idx : SubseqIndex) (s : seed_state) (i : nat)
  : seed_state :=
  let start := i in
  let matches := si_get_occurrences p_idx (Py.suffix_from p start) in
  fold_left (seed_check p t start) matches s.

(** [query_subseq_index(p, t, m, ival=1, k=None)]; [range(m + 1)] is
    evaluated once, with the budget. *)
Definition query_subseq_index (p t : Py.str) (m : nat) (ival : Z) (k : option Z)
  : list nat * nat :=
  let default_k :=
    Z.of_nat (Nat.max (Py.round_div (length p) (m + 1)) (length p / 2)) in
  let k := match k with
           | Some k' => if (k' =? 0)%Z then default_k else k'
           | None => default_k
           end in
  let p_idx := SubseqIndex_init t k ival in
  let s := fold_left (seed_round p t p_idx) (Py.range (Z.of_nat m + 1))
                     {| ss_m := m; ss_all_matches := ∅; ss_idx_hits := 0 |} in
  (Py.sorted (ss_all_matches s), ss_idx_hits s).

(** ** Reference definitions *)

(** [[i for i in range(len(t) - len(p) + 1) if t[i:i+len(p)] == p]] *)
Definition brute_force (p t : Py.str) : list nat :=
  List.filter (fun i => bool_decide (Py.substr t i (i + length p) = p))
              (Py.range (Z.of_nat (length t) - Z.of_nat (length p) + 1)).

(** Number of positions at which [p] differs from [t[i:i+len(p)]]. *)
Definition hamming_at (p t : Py.str) (i : nat) : nat :=
  length (List.filter (fun j => negb (Ascii.eqb (Py.index p j) (Py.index t (i + j))))
                      (seq 0 (length p))).

(** [p] occurs at offset [i] of [t] with at most [m] mismatches. *)
Definition occurs_within (p t : Py.str) (m i : nat) : Prop :=
  i + length p <= length t /\ hamming_at p t i <= m.

(** The while loop of either matcher as a relation: from [s] the loop
    runs [n] rounds of [body] and leaves in [s']. *)
Inductive while_runs (p t : Py.str) (body : scan_state -> scan_state)
  : scan_state -> nat -> scan_state -> Prop :=
  | while_exit s :
      loop_cond p t s = false -> while_runs p t body s 0 s
  | while_round s n s' :
      loop_cond p t s = true ->
      while_runs p t body (body s) n s' ->
      while_runs p t body s (S n) s'.

(** The number of candidate alignments, [len(t) - len(p) + 1] or none. *)
Definition num_alignments (p t : Py.str) : nat :=
  Z.to_nat (Z.of_nat (length t) - Z.of_nat (length p) + 1).

(** [p] occurs at offset [i] of [t]: [t[i:i+len(p)] == p]. *)
Definition occurs_at (p t : Py.str) (i : nat) : bool :=
  bool_decide (Py.substr t i (i + length p) = p).

(** [s] is a period of [p]: the pattern agrees with itself moved [s]
    places to the right, wherever both are defined. *)
Definition is_period (p : Py.str) (s : nat) : Prop :=
  forall k, k + s < length p -> Py.index p k = Py.index p (k + s).

(** What the scanning loop needs of the tables of a pattern: no positive
    shift below the one a lookup returns is compatible with what the
    alignment has seen.  For the bad-character rule the text symbol [c]
    under position [j] would have to meet [c] in the pattern; for the
    good-suffix rule the matched suffix would have to meet itself, before
    a character other than [p[j]]; after a full match the pattern would
    have to meet itself. *)
Record safe_tables (p : Py.str) (p_bm : BoyerMoorePreprocessing) : Prop := {
  bad_character_safe : forall j c s,
    j < length p -> 0 < s < bad_character_rule p_bm j c ->
    s <= j /\ Py.index p (j - s) <> c;
  good_suffix_safe : forall j s,
    j < length p -> 0 < s < good_suffix_rule p_bm j ->
    good_suffix_ok p j s = false;
  match_skip_safe : forall s,
    0 < s < match_skip p_bm -> ~ is_period p s
}.

(** The invariant of the scanning loop: the occurrences found so far are
    the ones below the current alignment. *)
Definition scanned (p t : Py.str) (s : scan_state) : Prop :=
  occurrences s
  = List.filter (occurs_at p t)
                (seq 0 (Nat.min (alignment_start_idx s) (num_alignments p t))).

(** What holds of the reported offsets whatever the tables return: they
    are ascending, lie below the current alignment, and each is an
    occurrence inside the text. *)
Definition reported_ok (p t : Py.str) (s : scan_state) : Prop :=
  StronglySorted lt (occurrences s)
  /\ Forall (fun i => i < alignment_start_idx s /\ i + length p <= length t
                      /\ occurs_at p t i = true) (occurrences s).

(** How the three counters of the scanning loop are related. *)
Definition counted (p t : Py.str) (s : scan_state) : Prop :=
  num_alignments_tried s <= alignment_start_idx s
  /\ num_alignments_tried s <= num_alignments p t
  /\ length (occurrences s) <= num_alignments_tried s
  /\ num_char_comparisons s <= num_alignments_tried s * length p
  /\ length (occurrences s) * length p
      + (num_alignments_tried s - length (occurrences s))
     <= num_char_comparisons s.

(** Two loop states that differ in [num_alignments_tried] only. *)
Definition same_scan (s1 s2 : scan_state) : Prop :=
  occurrences s1 = occurrences s2
  /\ skipped_alignments s1 = skipped_alignments s2
  /\ num_char_comparisons s1 = num_char_comparisons s2
  /\ alignment_start_idx s1 = alignment_start_idx s2.

(** [[i for i in range(len(t) - len(p) + 1) if hamming(p, t[i:i+len(p)]) <= m]] *)
Definition within_budget (p t : Py.str) (m : nat) : list nat :=
  List.filter (fun i => hamming_at p t i <=? m)
              (Py.range (Z.of_nat (length t) - Z.of_nat (length p) + 1)).

(** The variables of the scanning loop after [n] rounds on the empty
    pattern, where every round is a full match and moves on by [step]. *)
Definition empty_pattern_state (step n : nat) : scan_state :=
  {| occurrences := map (fun i => i * step) (seq 0 n);
     skipped_alignments := [];
     num_char_comparisons := 0;
     alignment_start_idx := n * step;
     num_alignments_tried := n |}.

(** * Properties *)

(** ** The scanning loop makes progress and terminates *)

Section Progress.

Variables (p : Py.str) (p_bm : BoyerMoorePreprocessing) (t : Py.str).

Lemma loop_cond_true (s : scan_state) :
  loop_cond p t s = true <-> alignment_start_idx s < num_alignments p t.
Proof. unfold loop_cond, num_alignments. rewrite Z.leb_le. lia. Qed.

Lemma loop_cond_false (s : scan_state) :
  loop_cond p t s = false <-> num_alignments p t <= alignment_start_idx s.
Proof. unfold loop_cond, num_alignments. rewrite Z.leb_gt. lia. Qed.

Lemma num_alignments_le : num_alignments p t <= S (length t).
Proof. unfold num_alignments. lia. Qed.

Lemma align_shift_pos (s : scan_state) : 1 <= a_shift (align p p_bm t s).
Proof.
  unfold align.
  destruct (compare_right_to_left p t _ _ _) as [[j|] cmps]; simpl; lia.
Qed.

Lemma query_body_start (s : scan_state) :
  alignment_start_idx (query_body p p_bm t s)
  = alignment_start_idx s + a_shift (align p p_bm t s).
Proof. reflexivity. Qed.

Lemma alignment_body_start (s : scan_state) :
  alignment_start_idx (alignment_body p p_bm t s)
  = alignment_start_idx s + a_shift (align p p_bm t s).
Proof. reflexivity. Qed.

(** Any body that moves the alignment forward leaves the loop within
    the fuel the matchers are given. *)
Lemma while_loop_runs (body : scan_state -> scan_state) :
  (forall s, alignment_start_idx s < alignment_start_idx (body s)) ->
  forall fuel s,
    num_alignments p t - alignment_start_idx s <= fuel ->
    exists n, n <= fuel /\ while_runs p t body s n (while_loop p t body fuel s).
Proof.
  intros Hbody fuel. induction fuel as [|fuel IH]; intros s Hfuel; simpl.
  - exists 0. split; [lia|]. constructor. apply loop_cond_false. lia.
  - destruct (loop_cond p t s) eqn:Hc.
    + destruct (IH (body s)) as (n & Hn & Hruns).
      { specialize (Hbody s). apply loop_cond_true in Hc. lia. }
      exists (S n). split; [lia|]. now constructor.
    + exists 0. split; [lia|]. now constructor.
Qed.

Lemma while_runs_exit (body : scan_state -> scan_state) s n s' :
  while_runs p t body s n s' -> loop_cond p t s' = false.
Proof. induction 1; auto. Qed.

(** The loop is deterministic: rounds and final state are unique. *)
Lemma while_runs_det (body : scan_state -> scan_state) s n1 s1 n2 s2 :
  while_runs p t body s n1 s1 -> while_runs p t body s n2 s2 ->
  n1 = n2 /\ s1 = s2.
Proof.
  intros H1. revert n2 s2.
  induction H1 as [s Hc|s n s' Hc _ IH]; intros n2 s2 H2; inversion H2; subst;
    try congruence; auto.
  match goal with
  | H : while_runs _ _ _ (body s) _ _ |- _ => destruct (IH _ _ H) as [-> ->]
  end.
  auto.
Qed.

Lemma query_scan_runs :
  exists n, n <= S (length t) /\
    while_runs p t (query_body p p_bm t) init_state n (query_scan p p_bm t).
Proof.
  apply while_loop_runs.
  - intros s. rewrite query_body_start. pose proof (align_shift_pos s). lia.
  - pose proof num_alignments_le. simpl. lia.
Qed.

Lemma alignment_scan_runs :
  exists n, n <= S (length t) /\
    while_runs p t (alignment_body p p_bm t) init_state n (alignment_scan p p_bm t).
Proof.
  apply while_loop_runs.
  - intros s. rewrite alignment_body_start. pose proof (align_shift_pos s). lia.
  - pose proof num_alignments_le. simpl. lia.
Qed.

End Progress.

(** C4.  In [BoyerMooreExact.query] (and in its L02 twin) the shift added
    to [alignment_start_idx] at the end of a round is at least 1, on a
    mismatch and on a full match alike, whatever the preprocessing tables
    return; the alignment therefore strictly increases, and for every
    pattern and text the while loop leaves after at most [len(t) + 1] rounds,
    in the state the matcher returns its result from. *)
Theorem query_shift_positive_and_terminates
  (p : Py.str) (p_bm : BoyerMoorePreprocessing) (t : Py.str) :
  (forall s, 1 <= a_shift (align p p_bm t s)) /\
  (forall s, alignment_start_idx s < alignment_start_idx (query_body p p_bm t s)) /\
  (forall s, alignment_start_idx s < alignment_start_idx (alignment_body p p_bm t s)) /\
  (exists n, n <= S (length t) /\
     while_runs p t (query_body p p_bm t) init_state n (query_scan p p_bm t)) /\
  (exists n, n <= S (length t) /\
     while_runs p t (alignment_body p p_bm t) init_state n (alignment_scan p p_bm t)).
Proof.
  split; [apply align_shift_pos|].
  split; [intros s; rewrite query_body_start; pose proof (align_shift_pos p p_bm t s); lia|].
  split; [intros s; rewrite alignment_body_start; pose proof (align_shift_pos p p_bm t s); lia|].
  split; [apply query_scan_runs | apply alignment_scan_runs].
Qed.

(** ** The alignment counter *)

Section Counter.

Variables (p : Py.str) (p_bm : BoyerMoorePreprocessing) (t : Py.str).

(** Course 3: one increment per round. *)
Lemma query_runs_tried s n s' :
  while_runs p t (query_body p p_bm t) s n s' ->
  num_alignments_tried s' = num_alignments_tried s + n.
Proof.
  induction 1 as [s Hc|s n s' Hc _ IH]; [lia|].
  rewrite IH. simpl. lia.
Qed.

Lemma query_tried_counts_rounds :
  exists n, while_runs p t (query_body p p_bm t) init_state n (query_scan p p_bm t)
            /\ (query_result p p_bm t).1.2 = n.
Proof.
  destruct (query_scan_runs p p_bm t) as (n & _ & Hruns).
  exists n. split; [exact Hruns|].
  apply query_runs_tried in Hruns. simpl in *. lia.
Qed.

(** L02: the loop never touches the counter; what is returned is the
    alignment the loop stopped at. *)
Lemma alignment_runs_start s n s' :
  while_runs p t (alignment_body p p_bm t) s n s' ->
  alignment_start_idx s + n <= alignment_start_idx s'.
Proof.
  induction 1 as [s Hc|s n s' Hc _ IH]; [lia|].
  rewrite alignment_body_start in IH.
  pose proof (align_shift_pos p p_bm t s). lia.
Qed.

Lemma alignment_result_tried :
  (alignment_result p p_bm t).1.2 = alignment_start_idx (alignment_scan p p_bm t).
Proof. reflexivity. Qed.

End Counter.

(** C8.  [BoyerMoore.boyer_moore_alignment] (L02) sets
    [num_alignments_tried = alignment_start_idx] after its loop, so the
    count it returns is the final alignment, not the number of rounds: for
    the pattern AC in the text GGGG the loop runs two rounds (alignments 0
    and 2) and 4 is returned, where [BoyerMooreExact.query] (course 3)
    returns 2. *)
Theorem boyer_moore_alignment_tried_is_final_start :
  exists tables,
    BoyerMoorePreprocessing_init (Py.lit "AC") ACGT = Ok tables /\
    boyer_moore_alignment {| bm_p := Py.lit "AC"; bm_p_bm := tables |} (Py.lit "GGGG")
    = ([], 4, 2) /\
    (exists s', while_runs (Py.lit "AC") (Py.lit "GGGG")
                           (alignment_body (Py.lit "AC") tables (Py.lit "GGGG"))
                           init_state 2 s') /\
    query {| bme_p := Py.lit "AC"; bme_p_bm := tables |} (Py.lit "GGGG") = ([], 2, 2).
Proof.
  eexists. split; [reflexivity|].
  split; [vm_compute; reflexivity|].
  split; [|vm_compute; reflexivity].
  eexists.
  apply while_round; [vm_compute; reflexivity|].
  apply while_round; [vm_compute; reflexivity|].
  apply while_exit. vm_compute; reflexivity.
Qed.

(** ** Inputs the matcher does not validate *)

Lemma query_pattern_longer (p : Py.str) (p_bm : BoyerMoorePreprocessing) (t : Py.str) :
  length t < length p ->
  query {| bme_p := p; bme_p_bm := p_bm |} t = ([], 0, 0).
Proof.
  intros Hlen. unfold query, query_result, query_scan. simpl.
  assert (Hc : loop_cond p t init_state = false).
  { apply loop_cond_false. unfold num_alignments. simpl. lia. }
  rewrite Hc. reflexivity.
Qed.

Lemma query_pattern_empty (p : Py.str) (p_bm : BoyerMoorePreprocessing) (t : Py.str) :
  length p = 0 ->
  exists rest tried,
    query {| bme_p := p; bme_p_bm := p_bm |} t = (0 :: rest, S tried, 0).
Proof.
  intros Hlen. apply length_zero_iff_nil in Hlen. subst p.
  assert (Hinv : forall fuel s,
             num_char_comparisons s = 0 ->
             (occurrences s = [] -> num_alignments_tried s = 0
                                    /\ alignment_start_idx s = 0) ->
             (occurrences s <> [] -> exists rest tried,
                   occurrences s = 0 :: rest /\ num_alignments_tried s = S tried) ->
             let s' := while_loop [] t (query_body [] p_bm t) fuel s in
             num_char_comparisons s' = 0 /\
             (occurrences s' = [] -> occurrences s = [] /\
                                     (fuel = 0 \/ loop_cond [] t s = false)) /\
             (occurrences s' <> [] -> exists rest tried,
                   occurrences s' = 0 :: rest /\ num_alignments_tried s' = S tried)).
  { induction fuel as [|fuel IH]; intros s Hcmp Hnil Hcons; simpl.
    - split; [assumption|]. split; [auto|assumption].
    - destruct (loop_cond [] t s) eqn:Hc; [|split; [assumption|split; [auto|assumption]]].
      destruct (IH (query_body [] p_bm t s)) as (H1 & H2 & H3).
      + simpl. assumption.
      + simpl. intros Habs. destruct (occurrences s); discriminate Habs.
      + simpl. intros _. destruct (occurrences s) as [|o os] eqn:Ho.
        * destruct (Hnil eq_refl) as [Htr Hst]. rewrite Hst. simpl.
          exists [], (num_alignments_tried s). split; [reflexivity|lia].
        * destruct Hcons as (rest & tried & Heq & Htr); [discriminate|].
          injection Heq as -> ->. simpl.
          exists (rest ++ [alignment_start_idx s]), (S tried). split; [reflexivity|lia].
      + split; [assumption|]. split; [|assumption].
        intros Hnil'. destruct (H2 Hnil') as [Habs _]. simpl in Habs.
        destruct (occurrences s); discriminate Habs. }
  destruct (Hinv (S (length t)) init_state) as (H1 & H2 & H3);
    [reflexivity|auto|simpl; congruence|].
  unfold query, query_result, query_scan. simpl bme_p. simpl bme_p_bm.
  destruct (occurrences (while_loop [] t (query_body [] p_bm t) (S (length t)) init_state))
    as [|o os] eqn:Ho.
  - destruct (H2 eq_refl) as [_ [Habs|Habs]]; [discriminate|].
    apply loop_cond_false in Habs. unfold num_alignments in Habs. simpl in Habs. lia.
  - destruct H3 as (rest & tried & Heq & Htr); [discriminate|].
    injection Heq as -> ->. exists rest, tried. rewrite Htr, H1. reflexivity.
Qed.

Lemma forallb_false_ex {A} (f : A -> bool) (l : list A) :
  forallb f l = false -> exists x, In x l /\ f x = false.
Proof.
  induction l as [|x l IH]; simpl; [discriminate|].
  destruct (f x) eqn:Hx; simpl.
  - intros H. destruct (IH H) as (y & Hy & Hfy). eauto.
  - intros _. eauto.
Qed.

Lemma init_raises_iff (p alphabet : Py.str) :
  BoyerMoorePreprocessing_init p alphabet = Raise AlphabetViolation
  <-> exists c, c ∈ p /\ c ∉ alphabet.
Proof.
  unfold BoyerMoorePreprocessing_init.
  destruct (forallb _ p) eqn:Hall.
  - split; [discriminate|]. intros (c & Hin & Hout).
    rewrite forallb_forall in Hall. apply list_elem_of_In in Hin.
    apply Hall, bool_decide_eq_true in Hin. contradiction.
  - split; [|reflexivity]. intros _.
    apply forallb_false_ex in Hall as (c & Hin & Hc). exists c.
    split; [now apply list_elem_of_In|].
    now apply bool_decide_eq_false in Hc.
Qed.

Lemma init_ok_iff (p alphabet : Py.str) :
  (exists tables, BoyerMoorePreprocessing_init p alphabet = Ok tables)
  <-> Forall (fun c => c ∈ alphabet) p.
Proof.
  unfold BoyerMoorePreprocessing_init.
  destruct (forallb _ p) eqn:Hall.
  - split; [|eauto]. intros _. rewrite forallb_forall in Hall.
    apply List.Forall_forall. intros c Hc. now apply Hall, bool_decide_eq_true in Hc.
  - split; [intros [? ?]; discriminate|]. intros HF.
    apply forallb_false_ex in Hall as (c & Hin & Hc).
    rewrite List.Forall_forall in HF. apply HF in Hin.
    apply bool_decide_eq_false in Hc. contradiction.
Qed.

(** C5.  The exact matcher validates nothing and never fails with
    [InvalidInput]: with a pattern longer than the text [query] returns
    the empty result [([], 0, 0)] without trying an alignment, and with
    an empty pattern it does scan, trying alignment 0 and reporting it as
    an occurrence, for whatever tables it is given.  The alphabet only
    reaches the preprocessing constructor, together with the pattern: the
    matcher fails with [AlphabetViolation] exactly when a pattern symbol
    is outside the alphabet, before any alignment and whatever the text. *)
Theorem exact_match_validates_nothing
  (p t alphabet : Py.str) (p_bm : BoyerMoorePreprocessing) :
  (length t < length p ->
     query {| bme_p := p; bme_p_bm := p_bm |} t = ([], 0, 0)) /\
  (length p = 0 ->
     exists rest tried,
       query {| bme_p := p; bme_p_bm := p_bm |} t = (0 :: rest, S tried, 0)) /\
  exact_match p t alphabet <> Raise InvalidInput /\
  (exact_match p t alphabet = Raise AlphabetViolation
   <-> exists c, c ∈ p /\ c ∉ alphabet).
Proof.
  split; [apply query_pattern_longer|].
  split; [apply query_pattern_empty|].
  rewrite <- init_raises_iff. unfold exact_match, BoyerMooreExact_init.
  destruct (BoyerMoorePreprocessing_init p alphabet) as [tables|e] eqn:Hinit.
  - split; [discriminate|]. split; discriminate.
  - assert (e = AlphabetViolation) as ->.
    { unfold BoyerMoorePreprocessing_init in Hinit.
      destruct (forallb _ p); congruence. }
    split; [discriminate|]. split; reflexivity.
Qed.

(** The pattern AA is longer than the text A; the empty pattern is empty. *)
Lemma exact_match_validates_nothing_witness :
  query {| bme_p := Py.lit "AA"; bme_p_bm := tables_of (Py.lit "AA") |} (Py.lit "A")
  = ([], 0, 0).
Proof.
  apply (proj1 (exact_match_validates_nothing (Py.lit "AA") (Py.lit "A") ACGT _)).
  simpl. lia.
Defined.

(** With the pattern AA and the text A the matcher returns, it does not
    fail; with the empty pattern and the text A it neither fails nor
    returns an empty result: both offsets 0 and 1 are reported. *)
Lemma exact_match_empty_pattern_scans :
  exact_match (Py.lit "AA") (Py.lit "A") ACGT <> Raise InvalidInput
  /\ ~ (exact_match (Py.lit "") (Py.lit "A") ACGT = Raise InvalidInput
        \/ exists tried cmps,
             exact_match (Py.lit "") (Py.lit "A") ACGT = Ok ([], tried, cmps)).
Proof.
  split; [vm_compute; discriminate|].
  assert (H : exact_match (Py.lit "") (Py.lit "A") ACGT = Ok ([0; 1], 2, 0))
    by (vm_compute; reflexivity).
  rewrite H. intros [Habs|(tried & cmps & Habs)]; discriminate Habs.
Qed.

(** ** The concrete scenario *)

(** TTAA occurs in ACGTACGTATTAAGGG at offset 9 and nowhere else, so the
    matcher does not return [10]. *)
Lemma exact_match_TTAA_not_10 :
  ~ (exists tried cmps,
        exact_match (Py.lit "TTAA") (Py.lit "ACGTACGTATTAAGGG") ACGT
        = Ok ([10], tried, cmps)).
Proof.
  assert (H : exact_match (Py.lit "TTAA") (Py.lit "ACGTACGTATTAAGGG") ACGT
              = Ok ([9], 5, 9)) by (vm_compute; reflexivity).
  rewrite H. intros (tried & cmps & Habs). discriminate Habs.
Qed.

(** C7.  For P = TTAA and T = ACGTACGTATTAAGGG over the alphabet ACGT the
    exact matcher returns the occurrence list [9], which is also what the
    brute-force scan of the text gives. *)
Theorem exact_match_TTAA :
  (exists tried cmps,
      exact_match (Py.lit "TTAA") (Py.lit "ACGTACGTATTAAGGG") ACGT
      = Ok ([9], tried, cmps)) /\
  brute_force (Py.lit "TTAA") (Py.lit "ACGTACGTATTAAGGG") = [9].
Proof.
  split; [exists 5, 9|]; vm_compute; reflexivity.
Qed.

(** ** The approximate matchers *)

Lemma range_succ (m : nat) : Py.range (Z.of_nat m + 1) = seq 0 (S m).
Proof. unfold Py.range. f_equal. lia. Qed.

Lemma sorted_empty : Py.sorted ∅ = [].
Proof. reflexivity. Qed.

(** [sorted] of a set: ascending, without duplicates, the same elements. *)
Lemma sorted_spec (s : gset nat) :
  Sorted le (Py.sorted s) /\ NoDup (Py.sorted s)
  /\ forall x, x ∈ Py.sorted s <-> x ∈ s.
Proof.
  unfold Py.sorted. split; [apply Sorted_merge_sort; apply _|].
  split.
  - rewrite merge_sort_Permutation. apply NoDup_elements.
  - intros x. rewrite merge_sort_Permutation. apply elem_of_elements.
Qed.

Lemma init_ok (p alphabet : Py.str) :
  Forall (fun c => c ∈ alphabet) p ->
  exists matcher, BoyerMooreExact_init p None alphabet = Ok matcher.
Proof.
  intros HF. apply init_ok_iff in HF as [tables Ht].
  unfold BoyerMooreExact_init. rewrite Ht. eexists. reflexivity.
Qed.

Lemma bm_partitions_ok (p t : Py.str) (m : nat) (alphabet : Py.str)
      (partition_length : nat) (rounds : list nat) (acc : gset nat * nat) :
  Forall (fun c => c ∈ alphabet) p ->
  exists acc', bm_partitions p t m alphabet partition_length rounds acc = Ok acc'.
Proof.
  intros HF. revert acc. induction rounds as [|i rounds IH]; intros acc; simpl.
  - eauto.
  - destruct (decide (Py.substr p _ _ = [])); [eauto|].
    destruct (init_ok (Py.substr p (i * partition_length)
                 (Nat.min (i * partition_length + partition_length) (length p))) alphabet)
      as [matcher Hm].
    { unfold Py.substr. apply Forall_take, Forall_drop, HF. }
    rewrite Hm. simpl. apply IH.
Qed.

(** C9.  Both approximate matchers return their occurrences sorted in
    ascending order and without duplicates: [query_bm] for every pattern
    over the alphabet, text and budget, and [query_subseq_index] for
    every pattern, text, budget, stride and [k]. *)
Theorem approximate_occurrences_sorted
  (p t : Py.str) (m : nat) (alphabet : Py.str) (ival : Z) (k : option Z) :
  Forall (fun c => c ∈ alphabet) p ->
  (exists occ hits, query_bm p t m alphabet = Ok (occ, hits)
                    /\ Sorted le occ /\ NoDup occ) /\
  (exists occ hits, query_subseq_index p t m ival k = (occ, hits)
                    /\ Sorted le occ /\ NoDup occ).
Proof.
  intros HF. split.
  - unfold query_bm.
    destruct (bm_partitions_ok p t m alphabet (Py.round_div (length p) (m + 1))
                (Py.range (Z.of_nat m + 1)) (∅, 0) HF) as [acc Hacc].
    rewrite Hacc. simpl. do 2 eexists. split; [reflexivity|].
    destruct (sorted_spec acc.1) as (H1 & H2 & _). auto.
  - unfold query_subseq_index. do 2 eexists. split; [reflexivity|].
    match goal with |- Sorted le (Py.sorted ?s) /\ _ =>
      destruct (sorted_spec s) as (H1 & H2 & _) end.
    auto.
Qed.

(** GATTACA in GATTTACAGATTACAAA with one mismatch allowed. *)
Lemma approximate_occurrences_sorted_witness :
  (exists occ hits,
      query_bm (Py.lit "GATTACA") (Py.lit "GATTTACAGATTACAAA") 1 ACGT = Ok (occ, hits)
      /\ Sorted le occ /\ NoDup occ) /\
  (exists occ hits,
      query_subseq_index (Py.lit "GATTACA") (Py.lit "GATTTACAGATTACAAA") 1 1 None
      = (occ, hits)
      /\ Sorted le occ /\ NoDup occ).
Proof.
  apply approximate_occurrences_sorted.
  repeat constructor; apply bool_decide_eq_true; vm_compute; reflexivity.
Defined.

(** C10.  When [int(round(len(p) / (m + 1)))] is 0, the first partition of
    [query_bm] is empty, the partition loop is left at once, and the
    result is the empty occurrence list with 0 candidate hits. *)
Theorem query_bm_zero_partition_length (p t : Py.str) (m : nat) (alphabet : Py.str) :
  Py.round_div (length p) (m + 1) = 0 ->
  query_bm p t m alphabet = Ok ([], 0).
Proof.
  intros Hround. unfold query_bm. rewrite Hround, range_succ. reflexivity.
Qed.

(** The pattern A occurs in the text A without any mismatch, and with a
    budget of 2 nothing is reported. *)
Lemma query_bm_zero_partition_length_witness :
  occurs_within (Py.lit "A") (Py.lit "A") 2 0 /\
  query_bm (Py.lit "A") (Py.lit "A") 2 ACGT = Ok ([], 0).
Proof.
  split.
  - split; vm_compute; lia.
  - apply query_bm_zero_partition_length. reflexivity.
Defined.

(** ** The exact matcher reports the occurrences *)

Lemma filter_none {A} (f : A -> bool) (l : list A) :
  (forall x, In x l -> f x = false) -> List.filter f l = [].
Proof.
  induction l as [|x l IH]; intros H; simpl; [reflexivity|].
  rewrite (H x) by (left; reflexivity). apply IH. intros y Hy. apply H. now right.
Qed.

Lemma substr_window (t : Py.str) (i n j : nat) :
  j < n -> Py.index (Py.substr t i (i + n)) j = Py.index t (i + j).
Proof.
  intros Hj. unfold Py.substr, Py.index.
  rewrite List.nth_firstn, List.nth_skipn.
  replace (j <? i + n - i) with true; [reflexivity|].
  symmetry. apply Nat.ltb_lt. lia.
Qed.

Lemma substr_length (t : Py.str) (i n : nat) :
  i + n <= length t -> length (Py.substr t i (i + n)) = n.
Proof.
  intros H. unfold Py.substr. rewrite List.length_firstn, List.length_skipn. lia.
Qed.

Lemma occurs_at_iff (p t : Py.str) (i : nat) :
  i + length p <= length t ->
  occurs_at p t i = true
  <-> forall j, j < length p -> Py.index p j = Py.index t (i + j).
Proof.
  intros Hin. unfold occurs_at. rewrite bool_decide_eq_true. split.
  - intros Heq j Hj. rewrite <- Heq at 1. apply substr_window.
    rewrite <- Heq at 1. now rewrite substr_length.
  - intros Hall. apply (List.nth_ext _ _ "000"%char "000"%char).
    + now apply substr_length.
    + intros j Hj. rewrite substr_length in Hj by assumption.
      fold (Py.index (Py.substr t i (i + length p)) j). fold (Py.index p j).
      rewrite substr_window by assumption. symmetry. now apply Hall.
Qed.

Lemma brute_force_eq (p t : Py.str) :
  brute_force p t = List.filter (occurs_at p t) (seq 0 (num_alignments p t)).
Proof. reflexivity. Qed.

Section Scan.

Variables (p : Py.str) (p_bm : BoyerMoorePreprocessing) (t : Py.str).

(** The inner loop stops at the rightmost mismatch. *)
Lemma compare_right_to_left_spec (start n cmps : nat) :
  match (compare_right_to_left p t start n cmps).1 with
  | None => forall j, j < n -> Py.index p j = Py.index t (start + j)
  | Some j =>
      j < n /\ Py.index p j <> Py.index t (start + j)
      /\ forall j', j < j' < n -> Py.index p j' = Py.index t (start + j')
  end.
Proof.
  revert cmps. induction n as [|n IH]; intros cmps; simpl.
  - intros j Hj. lia.
  - destruct (Ascii.eqb_spec (Py.index p n) (Py.index t (start + n))) as [Heq|Hne].
    + specialize (IH (cmps + 1)).
      destruct (compare_right_to_left p t start n (cmps + 1)).1 as [j|].
      * destruct IH as (Hj & Hm & Hs). split; [lia|]. split; [assumption|].
        intros j' Hj'. destruct (decide (j' = n)) as [->|]; [assumption|].
        apply Hs. lia.
      * intros j Hj. destruct (decide (j = n)) as [->|]; [assumption|].
        apply IH. lia.
    + simpl. split; [lia|]. split; [assumption|]. intros j' Hj'. lia.
Qed.

(** One comparison is counted for every position looked at. *)
Lemma compare_right_to_left_count (start n cmps : nat) :
  let r := compare_right_to_left p t start n cmps in
  r.2 = cmps + match r.1 with None => n | Some j => n - j end.
Proof.
  revert cmps. induction n as [|n IH]; intros cmps; simpl; [lia|].
  destruct (Ascii.eqb (Py.index p n) (Py.index t (start + n))).
  - specialize (IH (cmps + 1)). simpl in IH. rewrite IH.
    pose proof (compare_right_to_left_spec start n (cmps + 1)) as Hs.
    destruct (compare_right_to_left p t start n (cmps + 1)).1; [|lia].
    destruct Hs as [Hs _]. lia.
  - simpl. lia.
Qed.

(** The indices of the inner loop are in range while the loop condition
    holds. *)
Lemma index_in_range_scan (s : scan_state) (j : nat) :
  loop_cond p t s = true -> j < length p ->
  alignment_start_idx s + j < length t.
Proof.
  intros Hc Hj. apply loop_cond_true in Hc. unfold num_alignments in Hc. lia.
Qed.

Hypothesis Hsafe : safe_tables p p_bm.

(** After a mismatch at [j], no alignment below the shift is an occurrence. *)
Lemma mismatch_shift_safe (start j i : nat) :
  j < length p ->
  Py.index p j <> Py.index t (start + j) ->
  (forall j', j < j' < length p -> Py.index p j' = Py.index t (start + j')) ->
  start <= i ->
  i < start + Nat.max (bad_character_rule p_bm j (Py.index t (start + j)))
                      (Nat.max (good_suffix_rule p_bm j) 1) ->
  i + length p <= length t ->
  occurs_at p t i = false.
Proof.
  intros Hj Hne Hsuf Hlo Hhi Hin.
  apply not_true_iff_false. intros Hocc.
  rewrite occurs_at_iff in Hocc by assumption.
  destruct (decide (i = start)) as [->|Hneq].
  { apply Hne. now apply Hocc. }
  set (s := i - start). assert (Hi : i = start + s) by lia.
  assert (Hs : 0 < s) by lia.
  destruct (decide (s < bad_character_rule p_bm j (Py.index t (start + j)))) as [Hb|Hb].
  - destruct (bad_character_safe p p_bm Hsafe j (Py.index t (start + j)) s Hj)
      as [Hsj Hc]; [lia|].
    apply Hc. rewrite (Hocc (j - s)) by lia. f_equal. lia.
  - assert (Hg : s < good_suffix_rule p_bm j) by lia.
    pose proof (good_suffix_safe p p_bm Hsafe j s Hj ltac:(lia)) as Hok.
    apply not_true_iff_false in Hok. apply Hok. unfold good_suffix_ok.
    apply andb_true_iff. split.
    + apply forallb_forall. intros k Hk. apply in_seq in Hk.
      destruct (s <=? k) eqn:Hsk; [|reflexivity].
      apply Nat.leb_le in Hsk. apply Ascii.eqb_eq.
      rewrite (Hocc (k - s)) by lia. rewrite Hsuf by lia. f_equal. lia.
    + destruct (s <=? j) eqn:Hsj; [|reflexivity].
      apply Nat.leb_le in Hsj. apply negb_true_iff, Ascii.eqb_neq.
      rewrite (Hocc (j - s)) by lia. intros Heq. apply Hne. rewrite <- Heq. f_equal. lia.
Qed.

(** After a full match, no alignment below the shift is an occurrence. *)
Lemma match_shift_safe (start i : nat) :
  (forall j, j < length p -> Py.index p j = Py.index t (start + j)) ->
  start < i ->
  i < start + Nat.max 1 (match_skip p_bm) ->
  i + length p <= length t ->
  occurs_at p t i = false.
Proof.
  intros Hm Hlo Hhi Hin.
  apply not_true_iff_false. intros Hocc.
  rewrite occurs_at_iff in Hocc by assumption.
  apply (match_skip_safe p p_bm Hsafe (i - start)); [lia|].
  intros k Hk. rewrite (Hocc k) by lia. rewrite Hm by lia. f_equal. lia.
Qed.

Lemma scanned_step (occ : list nat) (start shift : nat) (found : bool) :
  start < num_alignments p t ->
  occ = List.filter (occurs_at p t) (seq 0 start) ->
  occurs_at p t start = found ->
  (forall i, start < i < start + shift -> i + length p <= length t ->
             occurs_at p t i = false) ->
  1 <= shift ->
  (if found then occ ++ [start] else occ)
  = List.filter (occurs_at p t)
                (seq 0 (Nat.min (start + shift) (num_alignments p t))).
Proof.
  intros Hlt Hocc Hfound Hskip Hshift.
  set (N := num_alignments p t) in *.
  replace (Nat.min (start + shift) N)
    with (start + S (Nat.min (start + shift) N - S start)) by lia.
  rewrite seq_app, List.filter_app, <- Hocc. simpl.
  rewrite Hfound.
  rewrite (filter_none (occurs_at p t) (seq (S start) _)).
  - destruct found; [reflexivity|now rewrite app_nil_r].
  - intros i Hi. apply in_seq in Hi. apply Hskip; [lia|].
    unfold N, num_alignments in *. lia.
Qed.

Lemma query_body_scanned (s : scan_state) :
  loop_cond p t s = true -> scanned p t s -> scanned p t (query_body p p_bm t s).
Proof.
  intros Hc Hinv. apply loop_cond_true in Hc. unfold scanned in *.
  rewrite Nat.min_l in Hinv by lia.
  assert (Hin : alignment_start_idx s + length p <= length t).
  { unfold num_alignments in Hc. lia. }
  unfold query_body, align. simpl.
  pose proof (compare_right_to_left_spec (alignment_start_idx s) (length p)
                (num_char_comparisons s)) as Hspec.
  destruct (compare_right_to_left p t (alignment_start_idx s) (length p)
              (num_char_comparisons s)) as [[j|] cmps]; simpl in *.
  - destruct Hspec as (Hj & Hne & Hsuf).
    apply (scanned_step (occurrences s) (alignment_start_idx s) _ false);
      auto; [| |lia].
    + apply not_true_iff_false. rewrite occurs_at_iff by assumption.
      intros Hocc. apply Hne. now apply Hocc.
    + intros i Hi Hi'. apply (mismatch_shift_safe (alignment_start_idx s) j); auto; lia.
  - apply (scanned_step (occurrences s) (alignment_start_idx s) _ true);
      auto; [| |lia].
    + now apply occurs_at_iff.
    + intros i Hi Hi'. apply (match_shift_safe (alignment_start_idx s)); auto; lia.
Qed.

Lemma while_runs_scanned s n s' :
  while_runs p t (query_body p p_bm t) s n s' -> scanned p t s -> scanned p t s'.
Proof.
  induction 1 as [s Hc|s n s' Hc _ IH]; [auto|].
  intros Hinv. apply IH. now apply query_body_scanned.
Qed.

(** With safe tables the scan returns the brute-force occurrence list. *)
Lemma query_safe_tables :
  (query_result p p_bm t).1.1 = brute_force p t.
Proof.
  destruct (query_scan_runs p p_bm t) as (n & _ & Hruns).
  pose proof (while_runs_scanned _ _ _ Hruns) as Hinv.
  pose proof (while_runs_exit p t _ _ _ _ Hruns) as Hexit.
  apply loop_cond_false in Hexit. simpl.
  rewrite Hinv by reflexivity. rewrite Nat.min_r by lia.
  now rewrite brute_force_eq.
Qed.

End Scan.

(** ** The tables of the preprocessing are safe *)

Lemma rightmost_before_spec (p : Py.str) (j : nat) (c : ascii) :
  match rightmost_before p j c with
  | Some i => i < j /\ Py.index p i = c
              /\ forall i', i < i' < j -> Py.index p i' <> c
  | None => forall i', i' < j -> Py.index p i' <> c
  end.
Proof.
  induction j as [|j IH]; simpl; [intros i' Hi'; lia|].
  destruct (Ascii.eqb_spec (Py.index p j) c) as [Heq|Hne].
  - split; [lia|]. split; [assumption|]. intros i' Hi'. lia.
  - destruct (rightmost_before p j c) as [i|].
    + destruct IH as (Hi & Hc & Hafter). split; [lia|]. split; [assumption|].
      intros i' Hi'. destruct (decide (i' = j)) as [->|]; [assumption|].
      apply Hafter. lia.
    + intros i' Hi'. destruct (decide (i' = j)) as [->|]; [assumption|].
      apply IH. lia.
Qed.

Lemma find_seq_first (f : nat -> bool) (a n : nat) :
  match find f (seq a n) with
  | Some s => a <= s < a + n /\ f s = true /\ forall s', a <= s' < s -> f s' = false
  | None => forall s', a <= s' < a + n -> f s' = false
  end.
Proof.
  revert a. induction n as [|n IH]; intros a; simpl; [intros s' Hs'; lia|].
  destruct (f a) eqn:Hfa.
  - split; [lia|]. split; [assumption|]. intros s' Hs'. lia.
  - specialize (IH (S a)). destruct (find f (seq (S a) n)) as [s|].
    + destruct IH as (Hs & Hfs & Hbefore). split; [lia|]. split; [assumption|].
      intros s' Hs'. destruct (decide (s' = a)) as [->|]; [assumption|].
      apply Hbefore. lia.
    + intros s' Hs'. destruct (decide (s' = a)) as [->|]; [assumption|].
      apply IH. lia.
Qed.

Lemma find_rev_seq_last (f : nat -> bool) (n : nat) :
  match find f (rev (seq 0 n)) with
  | Some b => b < n /\ f b = true /\ forall b', b < b' < n -> f b' = false
  | None => forall b', b' < n -> f b' = false
  end.
Proof.
  induction n as [|n IH]; [simpl; intros b' Hb'; lia|].
  rewrite seq_S, rev_unit. simpl.
  destruct (f n) eqn:Hfn.
  - split; [lia|]. split; [assumption|]. intros b' Hb'. lia.
  - destruct (find f (rev (seq 0 n))) as [b|].
    + destruct IH as (Hb & Hfb & Hafter). split; [lia|]. split; [assumption|].
      intros b' Hb'. destruct (decide (b' = n)) as [->|]; [assumption|].
      apply Hafter. lia.
    + intros b' Hb'. destruct (decide (b' = n)) as [->|]; [assumption|].
      apply IH. lia.
Qed.

(** A period [s] of [p] leaves a border of length [len(p) - s]. *)
Lemma period_border (p : Py.str) (s : nat) :
  s <= length p -> is_period p s ->
  firstn (length p - s) p = skipn (length p - (length p - s)) p.
Proof.
  intros Hs Hper. replace (length p - (length p - s)) with s by lia.
  apply (List.nth_ext _ _ "000"%char "000"%char).
  - rewrite List.length_firstn, List.length_skipn. lia.
  - intros k Hk. rewrite List.length_firstn in Hk.
    rewrite List.nth_firstn, List.nth_skipn.
    replace (k <? length p - s) with true by (symmetry; apply Nat.ltb_lt; lia).
    replace (s + k) with (k + s) by lia. apply Hper. lia.
Qed.

Lemma bad_character_shift_safe (p : Py.str) (j : nat) (c : ascii) (s : nat) :
  0 < s < bad_character_shift p j c -> s <= j /\ Py.index p (j - s) <> c.
Proof.
  unfold bad_character_shift. intros Hs.
  pose proof (rightmost_before_spec p j c) as Hr.
  destruct (rightmost_before p j c) as [i|].
  - destruct Hr as (Hi & _ & Hafter). split; [lia|]. apply Hafter. lia.
  - split; [lia|]. apply Hr. lia.
Qed.

Lemma good_suffix_shift_safe (p : Py.str) (j s : nat) :
  0 < s < good_suffix_shift p j -> good_suffix_ok p j s = false.
Proof.
  unfold good_suffix_shift. intros Hs.
  pose proof (find_seq_first (good_suffix_ok p j) 1 (length p)) as Hf.
  destruct (find (good_suffix_ok p j) (seq 1 (length p))) as [s0|].
  - destruct Hf as (_ & _ & Hbefore). apply Hbefore. lia.
  - apply Hf. lia.
Qed.

Lemma match_skip_of_safe (p : Py.str) (s : nat) :
  0 < s < match_skip_of p -> ~ is_period p s.
Proof.
  unfold match_skip_of, longest_proper_border. intros Hs Hper.
  pose proof (period_border p s) as Hb.
  pose proof (find_rev_seq_last
                (fun b => bool_decide (firstn b p = skipn (length p - b) p))
                (length p)) as Hf.
  destruct (find _ (rev (seq 0 (length p)))) as [b|].
  - destruct Hf as (_ & _ & Hafter).
    specialize (Hafter (length p - s) ltac:(lia)).
    apply bool_decide_eq_false in Hafter. apply Hafter, Hb; [lia|assumption].
  - specialize (Hf (length p - s) ltac:(lia)).
    apply bool_decide_eq_false in Hf. apply Hf, Hb; [lia|assumption].
Qed.

Lemma tables_of_safe (p : Py.str) : safe_tables p (tables_of p).
Proof.
  split; simpl.
  - intros j c s _. apply bad_character_shift_safe.
  - intros j s _. apply good_suffix_shift_safe.
  - apply match_skip_of_safe.
Qed.

Lemma exact_match_ok (p t alphabet : Py.str) :
  Forall (fun c => c ∈ alphabet) p ->
  exact_match p t alphabet = Ok (query_result p (tables_of p) t).
Proof.
  intros HF. apply init_ok_iff in HF as [tables Ht].
  unfold exact_match, BoyerMooreExact_init. rewrite Ht. simpl.
  unfold BoyerMoorePreprocessing_init in Ht.
  destruct (forallb _ p); [|discriminate]. injection Ht as <-. reflexivity.
Qed.

(** C1.  For a pattern [p] with [1 <= len(p) <= len(t)], pattern and text
    over the alphabet, the exact matcher returns, and the first component
    of its result is the brute-force list of the offsets [i] with
    [t[i:i+len(p)] == p], in ascending order and each once. *)
Theorem exact_match_brute_force (p t alphabet : Py.str) :
  1 <= length p <= length t ->
  Forall (fun c => c ∈ alphabet) p ->
  Forall (fun c => c ∈ alphabet) t ->
  exists tried cmps,
    exact_match p t alphabet = Ok (brute_force p t, tried, cmps)
    /\ NoDup (brute_force p t)
    /\ forall i, i ∈ brute_force p t
                 <-> i + length p <= length t /\ Py.substr t i (i + length p) = p.
Proof.
  intros Hlen Hp _.
  exists (query_result p (tables_of p) t).1.2, (query_result p (tables_of p) t).2.
  split; [|split].
  - rewrite (exact_match_ok p t alphabet Hp).
    rewrite <- (query_safe_tables p (tables_of p) t (tables_of_safe p)).
    now destruct (query_result p (tables_of p) t) as [[occ tried] cmps].
  - rewrite brute_force_eq. apply NoDup_ListNoDup, List.NoDup_filter, seq_NoDup.
  - intros i. rewrite brute_force_eq, list_elem_of_In, filter_In, in_seq.
    unfold occurs_at, num_alignments. rewrite bool_decide_eq_true.
    split; intros [H1 H2]; (split; [lia|assumption]).
Qed.

(** The pattern TTAA in the text ACGTACGTATTAAGGG. *)
Lemma exact_match_brute_force_witness :
  exists tried cmps,
    exact_match (Py.lit "TTAA") (Py.lit "ACGTACGTATTAAGGG") ACGT
    = Ok (brute_force (Py.lit "TTAA") (Py.lit "ACGTACGTATTAAGGG"), tried, cmps)
    /\ NoDup (brute_force (Py.lit "TTAA") (Py.lit "ACGTACGTATTAAGGG"))
    /\ forall i, i ∈ brute_force (Py.lit "TTAA") (Py.lit "ACGTACGTATTAAGGG")
                 <-> i + length (Py.lit "TTAA") <= length (Py.lit "ACGTACGTATTAAGGG")
                     /\ Py.substr (Py.lit "ACGTACGTATTAAGGG") i (i + length (Py.lit "TTAA"))
                        = Py.lit "TTAA".
Proof.
  apply exact_match_brute_force.
  - simpl. lia.
  - repeat constructor; apply bool_decide_eq_true; vm_compute; reflexivity.
  - repeat constructor; apply bool_decide_eq_true; vm_compute; reflexivity.
Defined.

(** ** The order of the index *)

Lemma ascii_compare_refl (a : ascii) : Ascii.compare a a = Eq.
Proof. unfold Ascii.compare. apply N.compare_refl. Qed.

Lemma ascii_compare_lt_trans (a b c : ascii) :
  Ascii.compare a b = Lt -> Ascii.compare b c = Lt -> Ascii.compare a c = Lt.
Proof. unfold Ascii.compare. rewrite !N.compare_lt_iff. lia. Qed.

Lemma str_compare_eq (a b : Py.str) : Py.str_compare a b = Eq <-> a = b.
Proof.
  revert b. induction a as [|x a IH]; intros [|y b]; simpl;
    try (split; [discriminate|congruence]); [tauto|].
  destruct (Ascii.compare x y) eqn:Hc.
  - apply Ascii.compare_eq_iff in Hc as ->. rewrite IH.
    split; [congruence|]. intros H. now injection H.
  - split; [discriminate|]. intros H. injection H as -> _.
    rewrite ascii_compare_refl in Hc. discriminate.
  - split; [discriminate|]. intros H. injection H as -> _.
    rewrite ascii_compare_refl in Hc. discriminate.
Qed.

Lemma str_compare_antisym (a b : Py.str) :
  Py.str_compare b a = CompOpp (Py.str_compare a b).
Proof.
  revert b. induction a as [|x a IH]; intros [|y b]; simpl; try reflexivity.
  rewrite (Ascii.compare_antisym y x).
  destruct (Ascii.compare x y); simpl; auto.
Qed.

Lemma str_compare_lt_trans (a b c : Py.str) :
  Py.str_compare a b = Lt -> Py.str_compare b c = Lt -> Py.str_compare a c = Lt.
Proof.
  revert b c. induction a as [|x a IH]; intros [|y b] [|z c]; simpl;
    try discriminate; try reflexivity.
  destruct (Ascii.compare x y) eqn:Hxy; try discriminate;
    destruct (Ascii.compare y z) eqn:Hyz; try discriminate; intros H1 H2.
  - apply Ascii.compare_eq_iff in Hxy as ->. rewrite Hyz. eauto.
  - apply Ascii.compare_eq_iff in Hxy as ->. now rewrite Hyz.
  - apply Ascii.compare_eq_iff in Hyz as <-. now rewrite Hxy.
  - now rewrite (ascii_compare_lt_trans x y z).
Qed.

Lemma tuple_compare_eq (e1 e2 : Py.str * Z) : Py.tuple_compare e1 e2 = Eq <-> e1 = e2.
Proof.
  destruct e1 as [a i], e2 as [b j]. unfold Py.tuple_compare. simpl.
  destruct (Py.str_compare a b) eqn:Hs.
  - apply str_compare_eq in Hs as ->. rewrite Z.compare_eq_iff.
    split; [congruence|]. intros H. now injection H.
  - split; [discriminate|]. intros H. injection H as -> _.
    rewrite (proj2 (str_compare_eq b b) eq_refl) in Hs. discriminate.
  - split; [discriminate|]. intros H. injection H as -> _.
    rewrite (proj2 (str_compare_eq b b) eq_refl) in Hs. discriminate.
Qed.

Lemma tuple_compare_antisym (e1 e2 : Py.str * Z) :
  Py.tuple_compare e2 e1 = CompOpp (Py.tuple_compare e1 e2).
Proof.
  destruct e1 as [a i], e2 as [b j]. unfold Py.tuple_compare. simpl.
  rewrite (str_compare_antisym a b).
  destruct (Py.str_compare a b); simpl; auto. apply Z.compare_antisym.
Qed.

Lemma tuple_compare_lt_trans (e1 e2 e3 : Py.str * Z) :
  Py.tuple_compare e1 e2 = Lt -> Py.tuple_compare e2 e3 = Lt ->
  Py.tuple_compare e1 e3 = Lt.
Proof.
  destruct e1 as [a i], e2 as [b j], e3 as [c k]. unfold Py.tuple_compare. simpl.
  destruct (Py.str_compare a b) eqn:Hab; try discriminate;
    destruct (Py.str_compare b c) eqn:Hbc; try discriminate; intros H1 H2.
  - apply str_compare_eq in Hab as ->. rewrite Hbc.
    rewrite Z.compare_lt_iff in *. lia.
  - apply str_compare_eq in Hab as ->. now rewrite Hbc.
  - apply str_compare_eq in Hbc as <-. now rewrite Hab.
  - now rewrite (str_compare_lt_trans a b c).
Qed.

#[global] Instance entry_le_total : Total entry_le.
Proof.
  intros e1 e2. unfold entry_le, Py.tuple_le.
  rewrite (tuple_compare_antisym (entry_key e1) (entry_key e2)).
  destruct (Py.tuple_compare (entry_key e1) (entry_key e2)); simpl;
    [left|left|right]; discriminate.
Qed.

#[global] Instance entry_le_trans : Transitive entry_le.
Proof.
  intros e1 e2 e3. unfold entry_le, Py.tuple_le. intros H12 H23.
  destruct (Py.tuple_compare (entry_key e1) (entry_key e2)) eqn:H1; [| |congruence].
  - apply tuple_compare_eq in H1. now rewrite H1.
  - destruct (Py.tuple_compare (entry_key e2) (entry_key e3)) eqn:H2; [| |congruence].
    + apply tuple_compare_eq in H2. rewrite <- H2, H1. discriminate.
    + rewrite (tuple_compare_lt_trans _ _ _ H1 H2). discriminate.
Qed.

(** What [entry_le] says about the two components. *)
Lemma entry_le_inv (e1 e2 : Py.str * nat) :
  entry_le e1 e2 ->
  Py.str_compare e1.1 e2.1 = Lt \/ (e1.1 = e2.1 /\ e1.2 <= e2.2).
Proof.
  unfold entry_le, Py.tuple_le, Py.tuple_compare. simpl.
  destruct (Py.str_compare e1.1 e2.1) eqn:Hs; [|auto|congruence].
  apply str_compare_eq in Hs. intros Hz. right. split; [assumption|].
  destruct (Z.compare_spec (Z.of_nat e1.2) (Z.of_nat e2.2)); try lia. congruence.
Qed.

(** ** Lookup in the subsequence index *)

(** The binary search returns the boundary of a list split by the test. *)
Lemma bisect_loop_partition {A X} (lt : A -> X -> bool) (d : A) (l1 l2 : list A) (x : X) :
  Forall (fun e => lt e x = true) l1 ->
  Forall (fun e => lt e x = false) l2 ->
  forall fuel lo hi,
    lo <= length l1 <= hi -> hi <= length (l1 ++ l2) -> hi - lo <= fuel ->
    Py.bisect_loop lt d (l1 ++ l2) x fuel lo hi = length l1.
Proof.
  intros H1 H2.
  induction fuel as [|fuel IH]; intros lo hi Hlo Hhi Hfuel; cbn [Py.bisect_loop]; [lia|].
  destruct (lo <? hi) eqn:Hlt; [|apply Nat.ltb_ge in Hlt; lia].
  apply Nat.ltb_lt in Hlt.
  assert (Hmid : lo <= (lo + hi) / 2 < hi).
  { split; [apply Nat.div_le_lower_bound|apply Nat.Div0.div_lt_upper_bound]; lia. }
  destruct (lt (nth ((lo + hi) / 2) (l1 ++ l2) d) x) eqn:Htest.
  - apply IH; [|assumption|lia].
    destruct (decide ((lo + hi) / 2 < length l1)) as [|Hge]; [lia|exfalso].
    rewrite app_nth2 in Htest by lia.
    rewrite List.Forall_forall in H2.
    rewrite H2 in Htest; [discriminate|].
    apply nth_In. rewrite length_app in Hhi. lia.
  - apply IH; [|lia|lia].
    destruct (decide (length l1 <= (lo + hi) / 2)) as [|Hlt']; [lia|exfalso].
    rewrite app_nth1 in Htest by lia.
    rewrite List.Forall_forall in H1.
    rewrite H1 in Htest; [discriminate|].
    apply nth_In. lia.
Qed.

Lemma bisect_left_partition {A X} (lt : A -> X -> bool) (d : A) (l1 l2 : list A) (x : X) :
  Forall (fun e => lt e x = true) l1 ->
  Forall (fun e => lt e x = false) l2 ->
  Py.bisect_left lt d (l1 ++ l2) x = length l1.
Proof.
  intros H1 H2. unfold Py.bisect_left.
  apply bisect_loop_partition; auto; rewrite ?length_app; lia.
Qed.

Section Hits.

Variable subseq : Py.str.

Lemma below_probe_iff (e : Py.str * nat) :
  Py.tuple_ltb (entry_key e) (subseq, (-1)%Z) = true
  <-> Py.str_compare e.1 subseq = Lt.
Proof.
  unfold Py.tuple_ltb, Py.tuple_compare. simpl.
  destruct (Py.str_compare e.1 subseq); [|tauto|split; discriminate].
  destruct (Z.compare_spec (Z.of_nat e.2) (-1)); try lia. split; discriminate.
Qed.

Lemma not_below_mono (e e' : Py.str * nat) :
  entry_le e e' ->
  Py.str_compare e.1 subseq <> Lt -> Py.str_compare e'.1 subseq <> Lt.
Proof.
  intros Hle Hn Hlt. apply Hn.
  destruct (entry_le_inv _ _ Hle) as [Hs|[Hs _]].
  - now apply (str_compare_lt_trans _ e'.1).
  - now rewrite Hs.
Qed.

Lemma sorted_partition (l : list (Py.str * nat)) :
  StronglySorted entry_le l ->
  exists l1 l2,
    l = l1 ++ l2
    /\ Forall (fun e => Py.str_compare e.1 subseq = Lt) l1
    /\ Forall (fun e => Py.str_compare e.1 subseq <> Lt) l2.
Proof.
  induction 1 as [|e l Hs IH Hall].
  - exists [], []. auto.
  - destruct (decide (Py.str_compare e.1 subseq = Lt)) as [Hlt|Hge].
    + destruct IH as (l1 & l2 & -> & H1 & H2).
      exists (e :: l1), l2. auto.
    + exists [], (e :: l). split; [reflexivity|]. split; [constructor|].
      constructor; [assumption|].
      rewrite List.Forall_forall in *. intros e' He'.
      apply (not_below_mono e e'); auto.
Qed.

Lemma collect_hits_filter (l : list (Py.str * nat)) :
  StronglySorted entry_le l ->
  Forall (fun e => Py.str_compare e.1 subseq <> Lt) l ->
  collect_hits l subseq
  = map snd (List.filter (fun e => bool_decide (e.1 = subseq)) l).
Proof.
  induction 1 as [|e l Hs IH Hall]; intros Hge; simpl; [reflexivity|].
  apply Forall_cons in Hge as [He Hge].
  destruct (decide (e.1 = subseq)) as [Heq|Hne].
  - rewrite bool_decide_eq_true_2 by assumption. simpl. f_equal. now apply IH.
  - rewrite bool_decide_eq_false_2 by assumption.
    rewrite filter_none; [reflexivity|].
    intros e' He'. apply bool_decide_eq_false. intros Heq'.
    rewrite List.Forall_forall in Hall.
    destruct (entry_le_inv _ _ (Hall _ He')) as [Hs'|[Hs' _]].
    + rewrite Heq' in Hs'. contradiction.
    + congruence.
Qed.

(** On a sorted index, the search and the collecting loop return the
    offsets of the entries whose subsequence is the query, in index order. *)
Lemma hits_of_sorted_index (index : list (Py.str * nat)) :
  StronglySorted entry_le index ->
  collect_hits
    (skipn (Py.bisect_left (fun e x => Py.tuple_ltb (entry_key e) x) ([], 0)
                           index (subseq, (-1)%Z)) index) subseq
  = map snd (List.filter (fun e => bool_decide (e.1 = subseq)) index).
Proof.
  intros Hs. destruct (sorted_partition index Hs) as (l1 & l2 & -> & H1 & H2).
  rewrite bisect_left_partition.
  - rewrite skipn_app, Nat.sub_diag, skipn_all. simpl.
    rewrite List.filter_app, (filter_none _ l1), app_nil_l.
    + apply collect_hits_filter; [|assumption].
      now apply StronglySorted_app in Hs as (_ & _ & Hs).
    + intros e He. apply bool_decide_eq_false. intros Heq.
      rewrite List.Forall_forall in H1. specialize (H1 e He).
      rewrite Heq, (proj2 (str_compare_eq subseq subseq) eq_refl) in H1. discriminate.
  - eapply Forall_impl; [exact H1|]. intros e He. now apply below_probe_iff.
  - eapply Forall_impl; [exact H2|]. intros e He.
    apply not_true_iff_false. now rewrite below_probe_iff.
Qed.

Lemma hits_sorted (l : list (Py.str * nat)) :
  StronglySorted entry_le l ->
  StronglySorted le (map snd (List.filter (fun e => bool_decide (e.1 = subseq)) l)).
Proof.
  induction 1 as [|e l Hs IH Hall]; simpl; [constructor|].
  destruct (decide (e.1 = subseq)) as [Heq|Hne].
  - rewrite bool_decide_eq_true_2 by assumption. simpl. constructor; [assumption|].
    rewrite List.Forall_forall in *. intros o Ho.
    apply in_map_iff in Ho as (e' & <- & He').
    apply filter_In in He' as [He' Heq']. apply bool_decide_eq_true in Heq'.
    destruct (entry_le_inv _ _ (Hall _ He')) as [Hlt|[_ Hle]]; [|assumption].
    rewrite Heq, Heq', (proj2 (str_compare_eq subseq subseq) eq_refl) in Hlt.
    discriminate.
  - now rewrite bool_decide_eq_false_2 by assumption.
Qed.

Lemma hits_of_windows (w : nat -> Py.str) (l : list nat) :
  map snd (List.filter (fun e : Py.str * nat => bool_decide (e.1 = subseq))
                       (map (fun i => (w i, i)) l))
  = List.filter (fun i => bool_decide (w i = subseq)) l.
Proof.
  induction l as [|i l IH]; simpl; [reflexivity|].
  destruct (bool_decide (w i = subseq)); simpl; now rewrite IH.
Qed.

End Hits.

Lemma filter_Permutation {A} (f : A -> bool) (l l' : list A) :
  l ≡ₚ l' -> List.filter f l ≡ₚ List.filter f l'.
Proof.
  induction 1 as [|x l l' _ IH|x y l|l l' l'' _ IH1 _ IH2]; simpl.
  - constructor.
  - destruct (f x); [now constructor|assumption].
  - destruct (f x), (f y); try reflexivity. apply perm_swap.
  - now transitivity (List.filter f l').
Qed.

Lemma filter_seq_sorted (f : nat -> bool) (a n : nat) :
  StronglySorted lt (List.filter f (seq a n)).
Proof.
  revert a. induction n as [|n IH]; intros a; simpl; [constructor|].
  destruct (f a); [|apply IH]. constructor; [apply IH|].
  apply List.Forall_forall. intros i Hi. apply filter_In in Hi as [Hi _].
  apply in_seq in Hi. lia.
Qed.

Lemma strictly_sorted_le (l : list nat) : StronglySorted lt l -> Sorted le l.
Proof.
  intros H. apply StronglySorted_Sorted.
  induction H as [|x l Hs IH Hall]; constructor; [assumption|].
  eapply Forall_impl; [exact Hall|]. intros y Hy. simpl in Hy. lia.
Qed.

(** The window [t[i:i+span:ival]] inside the text holds the [k] symbols
    at [i], [i + ival], ..., [i + (k-1)*ival]. *)
Lemma slice_step_window (t : Py.str) (k ival : Z) (i : nat) :
  (1 <= k)%Z -> (1 <= ival)%Z ->
  (Z.of_nat i + (1 + ival * (k - 1)) <= Z.of_nat (length t))%Z ->
  Py.slice_step t (Some (Z.of_nat i)) (Z.of_nat i + (1 + ival * (k - 1))) ival
  = map (fun j => Py.index t (i + j * Z.to_nat ival)) (seq 0 (Z.to_nat k)).
Proof.
  intros Hk Hival Hin. unfold Py.slice_step, Py.adjust_index.
  assert (Hspan : (0 <= ival * (k - 1))%Z) by nia.
  destruct (Z.ltb_spec (Z.of_nat i) 0); [lia|].
  destruct (Z.ltb_spec (Z.of_nat i + (1 + ival * (k - 1))) 0); [lia|].
  rewrite !Z.min_l by lia.
  destruct (Z.ltb_spec (Z.of_nat i) (Z.of_nat i + (1 + ival * (k - 1)))); [|lia].
  replace (Z.of_nat i + (1 + ival * (k - 1)) - Z.of_nat i - 1)%Z
    with ((k - 1) * ival)%Z by lia.
  rewrite Z.div_mul by lia.
  replace (k - 1 + 1)%Z with k by lia.
  apply map_ext. intros j. f_equal.
  rewrite Z2Nat.inj_add, Z2Nat.inj_mul, !Nat2Z.id by lia. reflexivity.
Qed.

(** C6.  For every text [t], [k >= 1] and [ival >= 1], the index of
    [SubseqIndex(t, k, ival)] is sorted by (subsequence, offset), and
    [get_hits(p)] returns exactly the offsets [i] of [range(len(t) - span + 1)]
    with [t[i:i+span:ival] == p[:span:ival]], where [span = 1 + ival*(k-1)],
    in strictly ascending order; each window holds the [k] symbols of the
    text that are [ival] apart from [i] on. *)
Theorem get_hits_exact (t p : Py.str) (k ival : Z) :
  (1 <= k)%Z -> (1 <= ival)%Z ->
  let self := SubseqIndex_init t k ival in
  let span := (1 + ival * (k - 1))%Z in
  let window i := Py.slice_step t (Some (Z.of_nat i)) (Z.of_nat i + span) ival in
  Sorted entry_le (si_index self)
  /\ get_hits self p
     = List.filter (fun i => bool_decide (window i = Py.slice_step p None span ival))
                   (Py.range (Z.of_nat (length t) - span + 1))
  /\ StronglySorted lt (get_hits self p)
  /\ forall i, i ∈ Py.range (Z.of_nat (length t) - span + 1) ->
               window i = map (fun j => Py.index t (i + j * Z.to_nat ival))
                              (seq 0 (Z.to_nat k)).
Proof.
  intros Hk Hival self span window.
  assert (Hsorted : Sorted entry_le (si_index self)).
  { apply Sorted_merge_sort. apply _. }
  assert (Heq : get_hits self p
                = List.filter
                    (fun i => bool_decide (window i = Py.slice_step p None span ival))
                    (Py.range (Z.of_nat (length t) - span + 1))).
  { unfold get_hits. simpl si_span. simpl si_ival. fold span.
    rewrite hits_of_sorted_index by (apply Sorted_StronglySorted; [apply _|assumption]).
    apply (Sorted_unique le).
    - apply StronglySorted_Sorted, hits_sorted.
      apply Sorted_StronglySorted; [apply _|assumption].
    - apply strictly_sorted_le, filter_seq_sorted.
    - rewrite <- (hits_of_windows _ window).
      apply Permutation_map, filter_Permutation.
      unfold self, SubseqIndex_init. simpl si_index. apply merge_sort_Permutation. }
  split; [assumption|]. split; [assumption|]. split.
  - rewrite Heq. apply filter_seq_sorted.
  - intros i Hi. apply list_elem_of_In, in_seq in Hi.
    apply slice_step_window; auto. unfold span in *. lia.
Qed.

(** The index of ATATAT with [k = 2], [ival = 2], queried with ATA. *)
Lemma get_hits_exact_witness :
  get_hits (SubseqIndex_init (Py.lit "ATATAT") 2 2) (Py.lit "ATA") = [0; 2].
Proof.
  destruct (get_hits_exact (Py.lit "ATATAT") (Py.lit "ATA") 2 2) as (_ & Heq & _);
    [lia|lia|].
  rewrite Heq. vm_compute. reflexivity.
Defined.

(** ** What [query_bm] reports is within the budget *)

Lemma count_mismatches_ge (p t : Py.str) (m base : nat) (js : list nat) (c : nat) :
  c <= count_mismatches p t m base js c.
Proof.
  revert c. induction js as [|j js IH]; intros c; simpl; [lia|].
  destruct (Ascii.eqb _ _); [apply IH|].
  destruct (m <? c + 1); [lia|]. specialize (IH (c + 1)). lia.
Qed.

(** If the early exit did not fire, the counter holds the number of
    mismatching positions. *)
Lemma count_mismatches_exact (p t : Py.str) (m base : nat) (js : list nat) (c : nat) :
  count_mismatches p t m base js c <= m ->
  count_mismatches p t m base js c
  = c + length (List.filter
                  (fun j => negb (Ascii.eqb (Py.index p j) (Py.index t (base + j)))) js).
Proof.
  revert c. induction js as [|j js IH]; intros c; simpl; [lia|].
  destruct (Ascii.eqb _ _); simpl; [apply IH|].
  destruct (m <? c + 1) eqn:Hm.
  - apply Nat.ltb_lt in Hm. lia.
  - intros H. rewrite IH by assumption. lia.
Qed.

Lemma brute_force_occurs (p t : Py.str) (i : nat) :
  In i (brute_force p t) ->
  i + length p <= length t
  /\ forall j, j < length p -> Py.index p j = Py.index t (i + j).
Proof.
  rewrite brute_force_eq, filter_In, in_seq. unfold num_alignments.
  intros [Hi Hocc]. assert (Hin : i + length p <= length t) by lia.
  split; [assumption|]. now apply occurs_at_iff.
Qed.

Lemma bm_check_sound (p t : Py.str) (m ps pe : nat) (acc : gset nat * nat) (match_ : nat) :
  ps <= pe <= length p ->
  (forall j, ps <= j < pe -> Py.index p j = Py.index t (match_ + (j - ps))) ->
  (forall i, i ∈ acc.1 -> occurs_within p t m i) ->
  forall i, i ∈ (bm_check p t m ps pe acc match_).1 -> occurs_within p t m i.
Proof.
  intros Hpart Hmatch Hacc i. destruct acc as [occ hits]. unfold bm_check.
  destruct (match_ <? ps) eqn:Hlo; simpl; [apply Hacc|].
  destruct (length t <? match_ - ps + length p) eqn:Hhi; simpl; [apply Hacc|].
  apply Nat.ltb_ge in Hlo, Hhi.
  set (c1 := count_mismatches p t m (match_ - ps) (seq 0 ps) 0).
  set (c2 := count_mismatches p t m (match_ - ps) (seq pe (length p - pe)) c1).
  destruct (c2 <=? m) eqn:Hacc'; simpl; [|apply Hacc].
  apply Nat.leb_le in Hacc'.
  rewrite elem_of_union, elem_of_singleton. intros [->|Hi]; [|now apply Hacc].
  split; [assumption|].
  pose proof (count_mismatches_ge p t m (match_ - ps) (seq pe (length p - pe)) c1) as Hge.
  fold c2 in Hge.
  pose proof (count_mismatches_exact p t m (match_ - ps) (seq pe (length p - pe)) c1 Hacc')
    as H2.
  pose proof (count_mismatches_exact p t m (match_ - ps) (seq 0 ps) 0 ltac:(fold c1; lia))
    as H1.
  fold c1 in H1, H2. fold c2 in H2.
  unfold hamming_at.
  replace (length p) with (ps + ((pe - ps) + (length p - pe))) at 1 by lia.
  rewrite !seq_app, !List.filter_app, !length_app. simpl.
  rewrite (filter_none _ (seq ps (pe - ps))).
  - replace (ps + (pe - ps)) with pe by lia. simpl. lia.
  - intros j Hj. apply in_seq in Hj. apply negb_false_iff, Ascii.eqb_eq.
    rewrite Hmatch by lia. f_equal. lia.
Qed.

Lemma bm_partitions_sound (p t : Py.str) (m : nat) (alphabet : Py.str)
      (partition_length : nat) (rounds : list nat) (acc acc' : gset nat * nat) :
  bm_partitions p t m alphabet partition_length rounds acc = Ok acc' ->
  (forall i, i ∈ acc.1 -> occurs_within p t m i) ->
  forall i, i ∈ acc'.1 -> occurs_within p t m i.
Proof.
  revert acc. induction rounds as [|r rounds IH]; intros acc; simpl.
  - intros H. injection H as <-. auto.
  - set (ps := r * partition_length).
    set (pe := Nat.min (ps + partition_length) (length p)).
    destruct (decide (Py.substr p ps pe = [])) as [|Hne].
    { intros H. injection H as <-. auto. }
    unfold BoyerMooreExact_init, BoyerMoorePreprocessing_init.
    destruct (forallb _ (Py.substr p ps pe)); [|discriminate]. simpl.
    intros Hrest Hacc. apply (IH _ Hrest). clear IH Hrest.
    assert (Hpart : ps < pe <= length p).
    { split; [|unfold pe; lia].
      destruct (decide (ps < pe)) as [|Hge]; [assumption|].
      exfalso. apply Hne. unfold Py.substr.
      replace (pe - ps) with 0 by lia. reflexivity. }
    assert (Hlen : length (Py.substr p ps pe) = pe - ps).
    { replace pe with (ps + (pe - ps)) at 1 by lia. apply substr_length. lia. }
    unfold get_occurrences, query. simpl bme_p. simpl bme_p_bm.
    rewrite (query_safe_tables _ _ t (tables_of_safe (Py.substr p ps pe))).
    pose proof (brute_force_occurs (Py.substr p ps pe) t) as Hbf.
    revert Hbf Hacc. generalize (brute_force (Py.substr p ps pe) t). intros occs.
    revert acc. induction occs as [|o occs IHo]; intros acc Hbf Hacc; simpl; [assumption|].
    apply IHo; [intros i Hi; apply Hbf; now right|].
    apply bm_check_sound; [lia| |assumption].
    intros j Hj. destruct (Hbf o (or_introl eq_refl)) as [_ Ho].
    rewrite <- Ho by lia.
    replace pe with (ps + (pe - ps)) at 1 by lia.
    rewrite substr_window by lia. f_equal. lia.
Qed.

(** Every offset [query_bm] reports is an offset at which [p] fits into
    [t] with at most [m] mismatches. *)
Lemma query_bm_sound (p t : Py.str) (m : nat) (alphabet : Py.str) (occ : list nat) (hits : nat) :
  query_bm p t m alphabet = Ok (occ, hits) ->
  forall i, i ∈ occ -> occurs_within p t m i.
Proof.
  unfold query_bm.
  destruct (bm_partitions p t m alphabet _ _ _) as [acc|e] eqn:Hparts; [|discriminate].
  simpl. intros H. injection H as <- _. intros i Hi.
  apply (proj2 (proj2 (sorted_spec acc.1))) in Hi.
  apply (bm_partitions_sound _ _ _ _ _ _ _ _ Hparts); [|assumption].
  simpl. intros j Hj. apply not_elem_of_empty in Hj. contradiction.
Qed.

(** C2.  [query_bm] misses an occurrence within the budget: AAAAAA differs
    from CACACA at offset 0 in three positions, the budget is 3, and the
    three partitions AA, AA, AA (the fourth is empty, because
    [round(6/4) = 2]) all contain a mismatch, so nothing is reported. *)
Theorem query_bm_misses_occurrence :
  occurs_within (Py.lit "AAAAAA") (Py.lit "CACACA") 3 0 /\
  hamming_at (Py.lit "AAAAAA") (Py.lit "CACACA") 0 = 3 /\
  query_bm (Py.lit "AAAAAA") (Py.lit "CACACA") 3 ACGT = Ok ([], 0).
Proof.
  split; [split; vm_compute; lia|].
  split; vm_compute; reflexivity.
Qed.

(** C3.  The two seeding strategies disagree: for AAAA in CCAACC with a
    budget of 1, [query_bm] reports nothing, while [query_subseq_index],
    whose loop [for m in matches] rebinds the budget to the index hit,
    reports the offsets 1 and 2, both at Hamming distance 2. *)
Theorem query_strategies_disagree :
  query_bm (Py.lit "AAAA") (Py.lit "CCAACC") 1 ACGT = Ok ([], 2) /\
  query_subseq_index (Py.lit "AAAA") (Py.lit "CCAACC") 1 1 None = ([1; 2], 2) /\
  hamming_at (Py.lit "AAAA") (Py.lit "CCAACC") 1 = 2 /\
  hamming_at (Py.lit "AAAA") (Py.lit "CCAACC") 2 = 2.
Proof.
  repeat split; vm_compute; reflexivity.
Qed.

(** * Further properties of the code *)

(** ** The exact matchers, whatever the tables *)

Section Reports.

Variables (p : Py.str) (p_bm : BoyerMoorePreprocessing) (t : Py.str).

Lemma query_body_reported (s : scan_state) :
  loop_cond p t s = true -> reported_ok p t s ->
  reported_ok p t (query_body p p_bm t s).
Proof.
  intros Hc [Hsorted Hall]. apply loop_cond_true in Hc.
  assert (Hin : alignment_start_idx s + length p <= length t).
  { unfold num_alignments in Hc. lia. }
  unfold reported_ok, query_body, align. simpl.
  pose proof (compare_right_to_left_spec p t (alignment_start_idx s) (length p)
                (num_char_comparisons s)) as Hspec.
  destruct (compare_right_to_left p t (alignment_start_idx s) (length p)
              (num_char_comparisons s)) as [[j|] cmps]; simpl in *.
  - split; [assumption|]. eapply Forall_impl; [exact Hall|].
    intros i (Hi & Hi' & Hocc). simpl. repeat split; auto; lia.
  - split.
    + apply StronglySorted_app. split; [|split; [assumption|repeat constructor]].
      intros x1 x2 Hx1 Hx2. apply list_elem_of_singleton in Hx2 as ->.
      rewrite Forall_forall in Hall. apply Hall in Hx1. lia.
    + apply Forall_app. split.
      * eapply Forall_impl; [exact Hall|].
        intros i (Hi & Hi' & Hocc). simpl. repeat split; auto; lia.
      * constructor; [|constructor]. split; [lia|]. split; [assumption|].
        now apply occurs_at_iff.
Qed.

Lemma while_runs_reported s n s' :
  while_runs p t (query_body p p_bm t) s n s' ->
  reported_ok p t s -> reported_ok p t s'.
Proof.
  induction 1 as [s Hc|s n s' Hc _ IH]; [auto|].
  intros Hinv. apply IH. now apply query_body_reported.
Qed.

(** The comparisons of one alignment: all of the pattern on a match, the
    positions down to the mismatch otherwise. *)
Lemma query_body_counted (s : scan_state) :
  loop_cond p t s = true -> counted p t s -> counted p t (query_body p p_bm t s).
Proof.
  intros Hc (H1 & H2 & H3 & H4 & H5). apply loop_cond_true in Hc.
  pose proof (align_shift_pos p p_bm t s) as Hshift.
  unfold counted, query_body. simpl. unfold align in *.
  pose proof (compare_right_to_left_spec p t (alignment_start_idx s) (length p)
                (num_char_comparisons s)) as Hspec.
  pose proof (compare_right_to_left_count p t (alignment_start_idx s) (length p)
                (num_char_comparisons s)) as Hcount.
  destruct (compare_right_to_left p t (alignment_start_idx s) (length p)
              (num_char_comparisons s)) as [[j|] cmps]; simpl in *.
  - destruct Hspec as (Hj & _). subst cmps. rewrite Nat.mul_add_distr_r. lia.
  - subst cmps. rewrite length_app. simpl. rewrite !Nat.mul_add_distr_r. lia.
Qed.

Lemma while_runs_counted s n s' :
  while_runs p t (query_body p p_bm t) s n s' -> counted p t s -> counted p t s'.
Proof.
  induction 1 as [s Hc|s n s' Hc _ IH]; [auto|].
  intros Hinv. apply IH. now apply query_body_counted.
Qed.

(** The L02 loop and the course 3 loop walk through the same states,
    the counter apart. *)
Lemma align_same_scan (s1 s2 : scan_state) :
  same_scan s1 s2 -> align p p_bm t s1 = align p p_bm t s2.
Proof.
  intros (Ho & Hs & Hc & Ha). unfold align. now rewrite Ho, Hs, Hc, Ha.
Qed.

Lemma while_loop_same_scan (fuel : nat) (s1 s2 : scan_state) :
  same_scan s1 s2 ->
  same_scan (while_loop p t (alignment_body p p_bm t) fuel s1)
            (while_loop p t (query_body p p_bm t) fuel s2).
Proof.
  revert s1 s2. induction fuel as [|fuel IH]; intros s1 s2 Hsame; simpl; [assumption|].
  assert (Hcond : loop_cond p t s1 = loop_cond p t s2).
  { unfold loop_cond. destruct Hsame as (_ & _ & _ & ->). reflexivity. }
  rewrite Hcond. destruct (loop_cond p t s2); [|assumption].
  apply IH. unfold same_scan, alignment_body, query_body. simpl.
  rewrite (align_same_scan s1 s2 Hsame).
  destruct Hsame as (_ & _ & _ & ->). auto.
Qed.

End Reports.

(** X1.  Whatever the preprocessing tables return, [BoyerMooreExact.query]
    reports only offsets at which the pattern occurs in the text, in
    strictly ascending order: wrong tables can lose occurrences, never
    invent or repeat one. *)
Theorem query_reports_only_occurrences
  (p : Py.str) (p_bm : BoyerMoorePreprocessing) (t : Py.str) :
  let occ := get_occurrences {| bme_p := p; bme_p_bm := p_bm |} t in
  StronglySorted lt occ
  /\ forall i, i ∈ occ ->
               i + length p <= length t /\ Py.substr t i (i + length p) = p.
Proof.
  destruct (query_scan_runs p p_bm t) as (n & _ & Hruns).
  destruct (while_runs_reported p p_bm t _ _ _ Hruns) as [Hsorted Hall].
  { split; constructor. }
  split; [exact Hsorted|].
  intros i Hi. rewrite Forall_forall in Hall. apply Hall in Hi as (_ & Hin & Hocc).
  split; [assumption|]. now apply bool_decide_eq_true in Hocc.
Qed.

(** TTAA in ACGTACGTATTAAGGG: the reported offset 9 is an occurrence. *)
Lemma query_reports_only_occurrences_witness :
  9 + length (Py.lit "TTAA") <= length (Py.lit "ACGTACGTATTAAGGG")
  /\ Py.substr (Py.lit "ACGTACGTATTAAGGG") 9 (9 + length (Py.lit "TTAA")) = Py.lit "TTAA".
Proof.
  destruct (query_reports_only_occurrences
              (Py.lit "TTAA") (tables_of (Py.lit "TTAA")) (Py.lit "ACGTACGTATTAAGGG"))
    as [_ Hocc].
  apply (Hocc 9).
  assert (H : get_occurrences {| bme_p := Py.lit "TTAA";
                                 bme_p_bm := tables_of (Py.lit "TTAA") |}
                              (Py.lit "ACGTACGTATTAAGGG") = [9])
    by (vm_compute; reflexivity).
  rewrite H. apply list_elem_of_In. simpl. tauto.
Defined.

(** X2.  The counters [BoyerMooreExact.query] returns, whatever the
    tables: at most [len(t) - len(p) + 1] alignments are tried; there are
    at most as many occurrences as alignments tried; an alignment costs at
    most [len(p)] comparisons, a full match exactly [len(p)] and any other
    alignment at least one. *)
Theorem query_counters
  (p : Py.str) (p_bm : BoyerMoorePreprocessing) (t : Py.str) :
  let r := query {| bme_p := p; bme_p_bm := p_bm |} t in
  r.1.2 <= num_alignments p t
  /\ length r.1.1 <= r.1.2
  /\ r.2 <= r.1.2 * length p
  /\ length r.1.1 * length p + (r.1.2 - length r.1.1) <= r.2.
Proof.
  destruct (query_scan_runs p p_bm t) as (n & _ & Hruns).
  destruct (while_runs_counted p p_bm t _ _ _ Hruns) as (H1 & H2 & H3 & H4 & H5).
  { unfold counted. simpl. lia. }
  simpl. auto.
Qed.

(** X3.  For the same pattern, tables and text, the L02 matcher
    [BoyerMoore.boyer_moore_alignment] returns the occurrences and the
    comparison count of [BoyerMooreExact.query]; only the middle component
    differs: course 3 returns at most the number of candidate alignments,
    L02 at least that number. *)
Theorem boyer_moore_alignment_agrees_with_query
  (p : Py.str) (p_bm : BoyerMoorePreprocessing) (t : Py.str) :
  let r1 := boyer_moore_alignment {| bm_p := p; bm_p_bm := p_bm |} t in
  let r2 := query {| bme_p := p; bme_p_bm := p_bm |} t in
  r1.1.1 = r2.1.1 /\ r1.2 = r2.2
  /\ r2.1.2 <= num_alignments p t <= r1.1.2.
Proof.
  pose proof (while_loop_same_scan p p_bm t (S (length t)) init_state init_state)
    as (Ho & _ & Hc & Ha).
  { repeat split. }
  destruct (query_scan_runs p p_bm t) as (n & _ & Hruns).
  pose proof (while_runs_exit p t _ _ _ _ Hruns) as Hexit.
  apply loop_cond_false in Hexit.
  destruct (while_runs_counted p p_bm t _ _ _ Hruns) as (_ & H2 & _).
  { unfold counted. simpl. lia. }
  unfold boyer_moore_alignment, alignment_result, alignment_scan,
    query, query_result, query_scan in *. simpl in *.
  repeat split; [assumption|assumption|assumption|lia].
Qed.

(** ** [query_bm] with enough room for its partitions *)

(** If the budget is not exceeded, the early exit does not fire. *)
Lemma count_mismatches_le (p t : Py.str) (m base : nat) (js : list nat) (c : nat) :
  c + length (List.filter
                (fun j => negb (Ascii.eqb (Py.index p j) (Py.index t (base + j)))) js)
  <= m ->
  count_mismatches p t m base js c
  = c + length (List.filter
                  (fun j => negb (Ascii.eqb (Py.index p j) (Py.index t (base + j)))) js).
Proof.
  revert c. induction js as [|j js IH]; intros c; simpl; [lia|].
  destruct (Ascii.eqb _ _); simpl; [apply IH|].
  intros H. destruct (m <? c + 1) eqn:Hm.
  - apply Nat.ltb_lt in Hm. lia.
  - rewrite IH by lia. lia.
Qed.

(** The mismatches of an alignment, split at a partition. *)
Lemma hamming_at_split (p t : Py.str) (i ps pe : nat) :
  ps <= pe <= length p ->
  hamming_at p t i
  = length (List.filter
              (fun j => negb (Ascii.eqb (Py.index p j) (Py.index t (i + j)))) (seq 0 ps))
    + length (List.filter
                (fun j => negb (Ascii.eqb (Py.index p j) (Py.index t (i + j))))
                (seq ps (pe - ps)))
    + length (List.filter
                (fun j => negb (Ascii.eqb (Py.index p j) (Py.index t (i + j))))
                (seq pe (length p - pe))).
Proof.
  intros H. unfold hamming_at.
  replace (length p) with (ps + ((pe - ps) + (length p - pe))) at 1 by lia.
  rewrite !seq_app, !List.filter_app, !length_app. simpl.
  replace (ps + (pe - ps)) with pe by lia. lia.
Qed.

(** A candidate whose partition matches and whose alignment is within the
    budget is accepted. *)
Lemma bm_check_accepts (p t : Py.str) (m ps pe : nat) (acc : gset nat * nat) (i : nat) :
  ps <= pe <= length p ->
  occurs_within p t m i ->
  i ∈ (bm_check p t m ps pe acc (i + ps)).1.
Proof.
  intros Hpart [Hin Hham]. destruct acc as [occ hits]. unfold bm_check.
  replace (i + ps <? ps) with false by (symmetry; apply Nat.ltb_ge; lia).
  replace (i + ps - ps) with i by lia.
  replace (length t <? i + length p) with false by (symmetry; apply Nat.ltb_ge; lia).
  simpl. rewrite (hamming_at_split p t i ps pe Hpart) in Hham.
  rewrite (count_mismatches_le p t m i (seq 0 ps) 0) by lia.
  rewrite count_mismatches_le by lia.
  match goal with |- context [?a <=? m] => replace (a <=? m) with true
    by (symmetry; apply Nat.leb_le; lia) end.
  simpl. apply elem_of_union_l, elem_of_singleton. reflexivity.
Qed.

Lemma bm_check_mono (p t : Py.str) (m ps pe : nat) (acc : gset nat * nat) (o x : nat) :
  x ∈ acc.1 -> x ∈ (bm_check p t m ps pe acc o).1.
Proof.
  destruct acc as [occ hits]. unfold bm_check. simpl. intros Hx.
  destruct (_ || _); [assumption|].
  destruct (_ <=? m); simpl; [now apply elem_of_union_r|assumption].
Qed.

Lemma fold_bm_check_mono (p t : Py.str) (m ps pe : nat) (occs : list nat)
      (acc : gset nat * nat) (x : nat) :
  x ∈ acc.1 -> x ∈ (fold_left (bm_check p t m ps pe) occs acc).1.
Proof.
  revert acc. induction occs as [|o occs IH]; intros acc Hx; simpl; [assumption|].
  apply IH. now apply bm_check_mono.
Qed.

Lemma fold_bm_check_accepts (p t : Py.str) (m ps pe : nat) (occs : list nat)
      (acc : gset nat * nat) (i : nat) :
  ps <= pe <= length p -> occurs_within p t m i -> In (i + ps) occs ->
  i ∈ (fold_left (bm_check p t m ps pe) occs acc).1.
Proof.
  intros Hpart Hocc. revert acc. induction occs as [|o occs IH]; intros acc; simpl; [tauto|].
  intros [->|Hin]; [|now apply IH].
  apply fold_bm_check_mono. now apply bm_check_accepts.
Qed.

(** Every candidate is counted once, accepted or not. *)
Lemma fold_bm_check_hits (p t : Py.str) (m ps pe : nat) (occs : list nat)
      (acc : gset nat * nat) :
  (fold_left (bm_check p t m ps pe) occs acc).2 = acc.2 + length occs.
Proof.
  revert acc. induction occs as [|o occs IH]; intros acc; simpl; [lia|].
  rewrite IH. destruct acc as [occ hits]. unfold bm_check. simpl.
  destruct (_ || _); simpl; [lia|]. destruct (_ <=? m); simpl; lia.
Qed.

Lemma bm_partitions_mono (p t : Py.str) (m : nat) (alphabet : Py.str)
      (partition_length : nat) (rounds : list nat) (acc acc' : gset nat * nat) (x : nat) :
  bm_partitions p t m alphabet partition_length rounds acc = Ok acc' ->
  x ∈ acc.1 -> x ∈ acc'.1.
Proof.
  revert acc. induction rounds as [|r rounds IH]; intros acc; simpl.
  - intros H. injection H as <-. auto.
  - destruct (decide (Py.substr p _ _ = [])).
    { intros H. injection H as <-. auto. }
    destruct (BoyerMooreExact_init _ None alphabet) as [matcher|e]; [|discriminate].
    simpl. intros Hrest Hx. apply (IH _ Hrest). now apply fold_bm_check_mono.
Qed.

(** A partition that lies inside the pattern is found wherever the
    pattern is aligned with the text. *)
Lemma partition_in_brute_force (p t : Py.str) (i ps n : nat) :
  ps + n <= length p -> i + length p <= length t ->
  (forall j, ps <= j < ps + n -> Py.index p j = Py.index t (i + j)) ->
  In (i + ps) (brute_force (Py.substr p ps (ps + n)) t).
Proof.
  intros Hps Hin Hclean.
  assert (Hlen : length (Py.substr p ps (ps + n)) = n) by now apply substr_length.
  rewrite brute_force_eq. apply filter_In. split.
  - apply in_seq. unfold num_alignments. rewrite Hlen. lia.
  - apply occurs_at_iff; rewrite Hlen; [lia|].
    intros j Hj. rewrite substr_window by assumption.
    rewrite Hclean by lia. f_equal. lia.
Qed.

Lemma bm_partitions_complete (p t : Py.str) (m : nat) (alphabet : Py.str)
      (pl : nat) (rounds : list nat) (acc acc' : gset nat * nat) (r i : nat) :
  1 <= pl ->
  (forall r', In r' rounds -> r' * pl + pl <= length p) ->
  In r rounds ->
  occurs_within p t m i ->
  (forall j, r * pl <= j < r * pl + pl -> Py.index p j = Py.index t (i + j)) ->
  bm_partitions p t m alphabet pl rounds acc = Ok acc' ->
  i ∈ acc'.1.
Proof.
  intros Hpl Hfull Hr Hocc Hclean. revert acc.
  induction rounds as [|r0 rounds IH]; intros acc; simpl; [contradiction|].
  assert (Hr0 : r0 * pl + pl <= length p) by (apply Hfull; now left).
  replace (Nat.min (r0 * pl + pl) (length p)) with (r0 * pl + pl) by lia.
  destruct (decide (Py.substr p (r0 * pl) (r0 * pl + pl) = [])) as [Hnil|_].
  { apply (f_equal length) in Hnil. rewrite substr_length in Hnil by lia.
    simpl in Hnil. lia. }
  unfold BoyerMooreExact_init, BoyerMoorePreprocessing_init.
  destruct (forallb _ (Py.substr p (r0 * pl) (r0 * pl + pl))); [|discriminate].
  simpl. intros Hrest.
  destruct Hr as [->|Hr].
  - apply (bm_partitions_mono _ _ _ _ _ _ _ _ _ Hrest).
    apply fold_bm_check_accepts; [lia|assumption|].
    unfold get_occurrences, query. simpl bme_p. simpl bme_p_bm.
    rewrite (query_safe_tables _ _ t (tables_of_safe _)).
    destruct Hocc as [Hin _]. now apply partition_in_brute_force.
  - apply (IH (fun r' H => Hfull r' (or_intror H)) Hr _ Hrest).
Qed.

(** Pigeonhole: [n] blocks with a mismatch each hold at least [n]
    mismatches. *)
Lemma blocks_mismatches (f : nat -> bool) (pl n : nat) :
  (forall r, r < n -> exists j, r * pl <= j < r * pl + pl /\ f j = true) ->
  n <= length (List.filter f (seq 0 (n * pl))).
Proof.
  induction n as [|n IH]; intros Hblocks; [lia|].
  replace (S n * pl) with (n * pl + pl) by lia.
  rewrite seq_app, List.filter_app, length_app. simpl.
  assert (Hn : n <= length (List.filter f (seq 0 (n * pl)))).
  { apply IH. intros r Hr. apply Hblocks. lia. }
  destruct (Hblocks n ltac:(lia)) as (j & Hj & Hfj).
  assert (Hin : In j (List.filter f (seq (n * pl) pl))).
  { apply filter_In. split; [apply in_seq; lia|assumption]. }
  destruct (List.filter f (seq (n * pl) pl)); [contradiction|]. simpl. lia.
Qed.

Lemma clean_block_exists (p t : Py.str) (m pl i : nat) :
  (m + 1) * pl <= length p ->
  hamming_at p t i <= m ->
  exists r, r <= m
            /\ forall j, r * pl <= j < r * pl + pl -> Py.index p j = Py.index t (i + j).
Proof.
  intros Hfull Hham.
  set (f := fun j => negb (Ascii.eqb (Py.index p j) (Py.index t (i + j)))).
  destruct (existsb (fun r => forallb (fun j => negb (f j)) (seq (r * pl) pl))
                    (seq 0 (m + 1))) eqn:Hex.
  - apply existsb_exists in Hex as (r & Hr & Hclean).
    apply in_seq in Hr. exists r. split; [lia|].
    intros j Hj. rewrite forallb_forall in Hclean.
    specialize (Hclean j ltac:(apply in_seq; lia)).
    unfold f in Hclean. rewrite negb_involutive in Hclean.
    now apply Ascii.eqb_eq.
  - exfalso.
    assert (Hblocks : forall r, r < m + 1 ->
                        exists j, r * pl <= j < r * pl + pl /\ f j = true).
    { intros r Hr.
      destruct (forallb (fun j => negb (f j)) (seq (r * pl) pl)) eqn:Hb.
      - assert (Habs : existsb (fun r => forallb (fun j => negb (f j)) (seq (r * pl) pl))
                               (seq 0 (m + 1)) = true).
        { apply existsb_exists. exists r. split; [apply in_seq; lia|assumption]. }
        congruence.
      - apply forallb_false_ex in Hb as (j & Hj & Hfj). apply in_seq in Hj.
        exists j. split; [lia|]. now apply negb_false_iff in Hfj. }
    apply blocks_mismatches in Hblocks.
    unfold hamming_at in Hham. fold f in Hham.
    replace (length p) with ((m + 1) * pl + (length p - (m + 1) * pl)) in Hham by lia.
    rewrite seq_app, List.filter_app, length_app in Hham. lia.
Qed.

Lemma within_budget_iff (p t : Py.str) (m i : nat) :
  In i (within_budget p t m) <-> occurs_within p t m i.
Proof.
  unfold within_budget, occurs_within, Py.range.
  rewrite filter_In, in_seq, Nat.leb_le. lia.
Qed.

(** With room for [m + 1] partitions, the occurrence list of [query_bm]
    is the list of all offsets within the budget. *)
Lemma query_bm_full (p t : Py.str) (m : nat) (alphabet : Py.str) :
  1 <= Py.round_div (length p) (m + 1) ->
  (m + 1) * Py.round_div (length p) (m + 1) <= length p ->
  Forall (fun c => c ∈ alphabet) p ->
  exists acc,
    bm_partitions p t m alphabet (Py.round_div (length p) (m + 1))
                  (Py.range (Z.of_nat m + 1)) (∅, 0) = Ok acc
    /\ Py.sorted acc.1 = within_budget p t m.
Proof.
  intros Hpl Hfull Hp. set (pl := Py.round_div (length p) (m + 1)) in *.
  destruct (bm_partitions_ok p t m alphabet pl (Py.range (Z.of_nat m + 1)) (∅, 0) Hp)
    as [acc Hacc].
  exists acc. split; [assumption|].
  destruct (sorted_spec acc.1) as (Hsorted & Hnodup & Hmem).
  apply (Sorted_unique le); [assumption| |].
  { apply strictly_sorted_le, filter_seq_sorted. }
  apply NoDup_Permutation; [assumption| |].
  { apply NoDup_ListNoDup, List.NoDup_filter, seq_NoDup. }
  intros i. rewrite Hmem, list_elem_of_In, within_budget_iff. split.
  - apply (bm_partitions_sound _ _ _ _ _ _ _ _ Hacc).
    simpl. intros j Hj. apply not_elem_of_empty in Hj. contradiction.
  - intros Hocc.
    destruct (clean_block_exists p t m pl i Hfull (proj2 Hocc)) as (r & Hr & Hclean).
    apply (bm_partitions_complete p t m alphabet pl (Py.range (Z.of_nat m + 1))
             (∅, 0) acc r i); auto.
    + intros r' Hr'. rewrite range_succ in Hr'. apply in_seq in Hr'. nia.
    + rewrite range_succ. apply in_seq. lia.
Qed.

(** X4.  Every offset [query_bm] reports is one at which the pattern fits
    into the text with at most [m] mismatches; nothing beyond the budget
    is ever reported. *)
Theorem query_bm_reports_within_budget
  (p t : Py.str) (m : nat) (alphabet : Py.str) (occ : list nat) (hits : nat) :
  query_bm p t m alphabet = Ok (occ, hits) ->
  forall i, i ∈ occ -> i + length p <= length t /\ hamming_at p t i <= m.
Proof. apply query_bm_sound. Qed.

(** AAAA in CCAAAC with one mismatch allowed: offsets 1 and 2 are
    reported; offset 1 has one mismatch. *)
Lemma query_bm_reports_within_budget_witness :
  1 + length (Py.lit "AAAA") <= length (Py.lit "CCAAAC")
  /\ hamming_at (Py.lit "AAAA") (Py.lit "CCAAAC") 1 <= 1.
Proof.
  apply (query_bm_reports_within_budget
           (Py.lit "AAAA") (Py.lit "CCAAAC") 1 ACGT [1; 2] 4).
  - vm_compute. reflexivity.
  - apply list_elem_of_In. simpl. tauto.
Defined.

(** X5.  When the rounded partition length is at least 1 and [m + 1]
    partitions of that length fit into the pattern, [query_bm] returns,
    for a pattern over the alphabet, exactly the offsets at which the
    pattern fits into the text with at most [m] mismatches, in ascending
    order. *)
Theorem query_bm_exact_with_full_partitions
  (p t : Py.str) (m : nat) (alphabet : Py.str) :
  1 <= Py.round_div (length p) (m + 1) ->
  (m + 1) * Py.round_div (length p) (m + 1) <= length p ->
  Forall (fun c => c ∈ alphabet) p ->
  exists hits, query_bm p t m alphabet = Ok (within_budget p t m, hits).
Proof.
  intros Hpl Hfull Hp.
  destruct (query_bm_full p t m alphabet Hpl Hfull Hp) as (acc & Hacc & Hsorted).
  exists acc.2. unfold query_bm. rewrite Hacc. simpl. now rewrite Hsorted.
Qed.

(** GATTACAT (two partitions of four symbols) in GATTTCATGATTACAT with
    one mismatch allowed. *)
Lemma query_bm_exact_with_full_partitions_witness :
  exists hits,
    query_bm (Py.lit "GATTACAT") (Py.lit "GATTTCATGATTACAT") 1 ACGT
    = Ok (within_budget (Py.lit "GATTACAT") (Py.lit "GATTTCATGATTACAT") 1, hits).
Proof.
  apply query_bm_exact_with_full_partitions.
  - vm_compute. lia.
  - vm_compute. lia.
  - repeat constructor; apply bool_decide_eq_true; vm_compute; reflexivity.
Defined.

(** ** [query_bm] without budget *)

Lemma round_div_1 (a : nat) : Py.round_div a 1 = a.
Proof.
  unfold Py.round_div. rewrite Nat.div_1_r, Nat.mod_1_r. reflexivity.
Qed.

Lemma substr_all (p : Py.str) : Py.substr p 0 (length p) = p.
Proof.
  unfold Py.substr. rewrite Nat.sub_0_r. simpl. apply firstn_all.
Qed.

(** No mismatch at an alignment means an occurrence there. *)
Lemma hamming_zero_occurs (p t : Py.str) (i : nat) :
  i + length p <= length t ->
  (hamming_at p t i <=? 0) = occurs_at p t i.
Proof.
  intros Hin. apply eq_true_iff_eq.
  rewrite Nat.leb_le, (occurs_at_iff p t i Hin). unfold hamming_at. split.
  - intros Hz j Hj. apply Ascii.eqb_eq.
    destruct (Ascii.eqb (Py.index p j) (Py.index t (i + j))) eqn:He; [reflexivity|].
    assert (Hj' : In j (List.filter
                          (fun j => negb (Ascii.eqb (Py.index p j) (Py.index t (i + j))))
                          (seq 0 (length p)))).
    { apply filter_In. split; [apply in_seq; lia|]. now rewrite He. }
    destruct (List.filter _ (seq 0 (length p))); [contradiction|]. simpl in Hz. lia.
  - intros Hall. rewrite filter_none; [simpl; lia|].
    intros j Hj. apply in_seq in Hj. apply negb_false_iff, Ascii.eqb_eq, Hall. lia.
Qed.

Lemma within_budget_zero (p t : Py.str) : within_budget p t 0 = brute_force p t.
Proof.
  rewrite brute_force_eq. unfold within_budget, Py.range. fold (num_alignments p t).
  apply filter_ext_in. intros i Hi. apply in_seq in Hi.
  apply hamming_zero_occurs. unfold num_alignments in Hi. lia.
Qed.

(** X6.  With a budget of 0 the partition is the whole pattern and
    [query_bm] is the exact matcher: for a non-empty pattern over the
    alphabet it returns the brute-force occurrence list, and its candidate
    count is the number of occurrences. *)
Theorem query_bm_zero_budget (p t alphabet : Py.str) :
  1 <= length p ->
  Forall (fun c => c ∈ alphabet) p ->
  query_bm p t 0 alphabet = Ok (brute_force p t, length (brute_force p t)).
Proof.
  intros Hlen Hp.
  destruct (query_bm_full p t 0 alphabet) as (acc & Hacc & Hsorted);
    [rewrite round_div_1; lia|rewrite round_div_1; lia|assumption|].
  unfold query_bm. rewrite Hacc. simpl.
  rewrite Hsorted, within_budget_zero. do 2 f_equal.
  rewrite round_div_1, (range_succ 0) in Hacc. simpl in Hacc.
  rewrite Nat.min_id, substr_all in Hacc.
  destruct (decide (p = [])) as [->|_]; [simpl in Hlen; lia|].
  unfold BoyerMooreExact_init, BoyerMoorePreprocessing_init in Hacc.
  destruct (forallb _ p); [|discriminate]. simpl in Hacc.
  injection Hacc as <-. rewrite fold_bm_check_hits. simpl.
  unfold get_occurrences, query. simpl bme_p. simpl bme_p_bm.
  now rewrite (query_safe_tables _ _ t (tables_of_safe p)).
Qed.

(** TTAA in ACGTACGTATTAAGGG without mismatches. *)
Lemma query_bm_zero_budget_witness :
  query_bm (Py.lit "TTAA") (Py.lit "ACGTACGTATTAAGGG") 0 ACGT
  = Ok (brute_force (Py.lit "TTAA") (Py.lit "ACGTACGTATTAAGGG"),
        length (brute_force (Py.lit "TTAA") (Py.lit "ACGTACGTATTAAGGG"))).
Proof.
  apply query_bm_zero_budget.
  - simpl. lia.
  - repeat constructor; apply bool_decide_eq_true; vm_compute; reflexivity.
Defined.

(** ** Occurrences and candidate counts *)

Lemma size_add_le (x : nat) (s : gset nat) : size ({[ x ]} ∪ s) <= S (size s).
Proof.
  rewrite size_union_alt, size_singleton.
  assert (Hsub : s ∖ {[ x ]} ⊆ s).
  { intros y Hy. now apply elem_of_difference in Hy as [Hy _]. }
  apply subseteq_size in Hsub. lia.
Qed.

Lemma sorted_length (s : gset nat) : length (Py.sorted s) = size s.
Proof.
  unfold Py.sorted. rewrite merge_sort_Permutation. reflexivity.
Qed.

Lemma fold_bm_check_size (p t : Py.str) (m ps pe : nat) (occs : list nat)
      (acc : gset nat * nat) :
  size acc.1 <= acc.2 ->
  size (fold_left (bm_check p t m ps pe) occs acc).1
  <= (fold_left (bm_check p t m ps pe) occs acc).2.
Proof.
  revert acc. induction occs as [|o occs IH]; intros acc Hacc; simpl; [assumption|].
  apply IH. destruct acc as [occ hits]. unfold bm_check. simpl in *.
  destruct (_ || _); simpl; [lia|].
  destruct (_ <=? m); simpl; [|lia].
  pose proof (size_add_le (o - ps) occ). lia.
Qed.

Lemma bm_partitions_size (p t : Py.str) (m : nat) (alphabet : Py.str)
      (partition_length : nat) (rounds : list nat) (acc acc' : gset nat * nat) :
  bm_partitions p t m alphabet partition_length rounds acc = Ok acc' ->
  size acc.1 <= acc.2 -> size acc'.1 <= acc'.2.
Proof.
  revert acc. induction rounds as [|r rounds IH]; intros acc; simpl.
  - intros H. injection H as <-. auto.
  - destruct (decide (Py.substr p _ _ = [])).
    { intros H. injection H as <-. auto. }
    destruct (BoyerMooreExact_init _ None alphabet) as [matcher|e]; [|discriminate].
    simpl. intros Hrest Hacc. apply (IH _ Hrest). now apply fold_bm_check_size.
Qed.

Lemma fold_seed_check_size (p t : Py.str) (start : nat) (hits : list nat) (s : seed_state) :
  size (ss_all_matches s) <= ss_idx_hits s ->
  size (ss_all_matches (fold_left (seed_check p t start) hits s))
  <= ss_idx_hits (fold_left (seed_check p t start) hits s).
Proof.
  revert s. induction hits as [|h hits IH]; intros s Hs; simpl; [assumption|].
  apply IH. unfold seed_check.
  destruct (_ || _); simpl; [lia|].
  destruct (_ <=? h); simpl; [|lia].
  pose proof (size_add_le (h - start) (ss_all_matches s)). lia.
Qed.

Lemma fold_seed_round_size (p t : Py.str) (p_idx : SubseqIndex) (rounds : list nat)
      (s : seed_state) :
  size (ss_all_matches s) <= ss_idx_hits s ->
  size (ss_all_matches (fold_left (seed_round p t p_idx) rounds s))
  <= ss_idx_hits (fold_left (seed_round p t p_idx) rounds s).
Proof.
  revert s. induction rounds as [|i rounds IH]; intros s Hs; simpl; [assumption|].
  apply IH. unfold seed_round. now apply fold_seed_check_size.
Qed.

(** X7.  Neither approximate matcher reports more occurrences than it
    examined candidates: the candidate count returned beside the
    occurrence list is at least its length. *)
Theorem approximate_occurrences_at_most_hits
  (p t : Py.str) (m : nat) (alphabet : Py.str) (ival : Z) (k : option Z) :
  (forall occ hits, query_bm p t m alphabet = Ok (occ, hits) -> length occ <= hits)
  /\ length (query_subseq_index p t m ival k).1 <= (query_subseq_index p t m ival k).2.
Proof.
  split.
  - intros occ hits. unfold query_bm.
    destruct (bm_partitions p t m alphabet _ _ _) as [acc|e] eqn:Hparts; [|discriminate].
    simpl. intros H. injection H as <- <-. rewrite sorted_length.
    apply (bm_partitions_size _ _ _ _ _ _ _ _ Hparts).
    cbn [fst snd]. rewrite size_empty. lia.
  - unfold query_subseq_index. simpl. rewrite sorted_length.
    apply fold_seed_round_size.
    cbn [ss_all_matches ss_idx_hits]. rewrite size_empty. lia.
Qed.

(** GATTACA in GATTTACAGATTACAAA with one mismatch allowed: one
    occurrence out of four candidates. *)
Lemma approximate_occurrences_at_most_hits_witness :
  length [8] <= 4.
Proof.
  apply (proj1 (approximate_occurrences_at_most_hits
                  (Py.lit "GATTACA") (Py.lit "GATTTACAGATTACAAA") 1 ACGT 1 None) [8] 4).
  vm_compute. reflexivity.
Defined.

(** ** What [query_subseq_index] accepts *)

Lemma fold_seed_check_bound (p t : Py.str) (m0 start : nat) (hits : list nat)
      (s : seed_state) :
  start <= m0 ->
  (forall o, o ∈ ss_all_matches s ->
             o + length p <= length t /\ hamming_at p t o <= o + m0) ->
  forall o, o ∈ ss_all_matches (fold_left (seed_check p t start) hits s) ->
            o + length p <= length t /\ hamming_at p t o <= o + m0.
Proof.
  intros Hstart. revert s. induction hits as [|h hits IH]; intros s Hs; simpl; [assumption|].
  apply IH. unfold seed_check.
  destruct (h <? start) eqn:Hlo; simpl; [assumption|].
  destruct (length t <? h - start + length p) eqn:Hhi; simpl; [assumption|].
  apply Nat.ltb_ge in Hlo, Hhi.
  destruct (count_mismatches p t h (h - start) (seq 0 (length p)) 0 <=? h) eqn:Hacc;
    simpl; [|assumption].
  apply Nat.leb_le in Hacc.
  intros o. rewrite elem_of_union, elem_of_singleton. intros [->|Ho]; [|now apply Hs].
  split; [assumption|].
  rewrite (count_mismatches_exact p t h (h - start) (seq 0 (length p)) 0 Hacc) in Hacc.
  unfold hamming_at. simpl in Hacc. lia.
Qed.

Lemma fold_seed_round_bound (p t : Py.str) (p_idx : SubseqIndex) (m0 : nat)
      (rounds : list nat) (s : seed_state) :
  (forall i, In i rounds -> i <= m0) ->
  (forall o, o ∈ ss_all_matches s ->
             o + length p <= length t /\ hamming_at p t o <= o + m0) ->
  forall o, o ∈ ss_all_matches (fold_left (seed_round p t p_idx) rounds s) ->
            o + length p <= length t /\ hamming_at p t o <= o + m0.
Proof.
  revert s. induction rounds as [|i rounds IH]; intros s Hr Hs; simpl; [assumption|].
  apply IH; [intros i' Hi'; apply Hr; now right|].
  unfold seed_round. apply fold_seed_check_bound; [apply Hr; now left|assumption].
Qed.

(** X8.  Every offset [o] that [query_subseq_index] reports leaves the
    pattern inside the text, and the pattern differs from the text there
    in at most [o + m] positions: the verification compares the mismatch
    count with the index hit, which the loop variable [m] holds by then,
    and the hit is at most [m] places right of [o]. *)
Theorem query_subseq_index_reports
  (p t : Py.str) (m : nat) (ival : Z) (k : option Z) (o : nat) :
  o ∈ (query_subseq_index p t m ival k).1 ->
  o + length p <= length t /\ hamming_at p t o <= o + m.
Proof.
  unfold query_subseq_index. simpl. intros Ho.
  apply (proj2 (proj2 (sorted_spec _))) in Ho.
  revert o Ho. apply fold_seed_round_bound.
  - intros i Hi. rewrite range_succ in Hi. apply in_seq in Hi. lia.
  - simpl. intros o Ho. apply not_elem_of_empty in Ho. contradiction.
Qed.

(** AAAA in CCAACC with a budget of 1: offset 2 is reported, with two
    mismatches. *)
Lemma query_subseq_index_reports_witness :
  2 + length (Py.lit "AAAA") <= length (Py.lit "CCAACC")
  /\ hamming_at (Py.lit "AAAA") (Py.lit "CCAACC") 2 <= 2 + 1.
Proof.
  apply (query_subseq_index_reports (Py.lit "AAAA") (Py.lit "CCAACC") 1 1 None 2).
  assert (H : (query_subseq_index (Py.lit "AAAA") (Py.lit "CCAACC") 1 1 None).1 = [1; 2])
    by (vm_compute; reflexivity).
  rewrite H. apply list_elem_of_In. simpl. tauto.
Defined.

(** ** The subsequence index *)

Lemma index_Permutation (t : Py.str) (k ival : Z) :
  si_index (SubseqIndex_init t k ival)
  ≡ₚ map (fun i => (Py.slice_step t (Some (Z.of_nat i))
                                   (Z.of_nat i + (1 + ival * (k - 1))) ival, i))
         (Py.range (Z.of_nat (length t) - (1 + ival * (k - 1)) + 1)).
Proof. unfold SubseqIndex_init. simpl. apply merge_sort_Permutation. Qed.

(** What [get_hits] returns, for any [k] and [ival]. *)
Lemma get_hits_filter (t p : Py.str) (k ival : Z) :
  get_hits (SubseqIndex_init t k ival) p
  = List.filter
      (fun i => bool_decide
                  (Py.slice_step t (Some (Z.of_nat i))
                                 (Z.of_nat i + (1 + ival * (k - 1))) ival
                   = Py.slice_step p None (1 + ival * (k - 1)) ival))
      (Py.range (Z.of_nat (length t) - (1 + ival * (k - 1)) + 1)).
Proof.
  assert (Hsorted : StronglySorted entry_le (si_index (SubseqIndex_init t k ival))).
  { apply Sorted_StronglySorted; [apply _|]. apply Sorted_merge_sort. apply _. }
  unfold get_hits. simpl si_span. simpl si_ival.
  rewrite hits_of_sorted_index by assumption.
  apply (Sorted_unique le).
  - apply StronglySorted_Sorted. now apply hits_sorted.
  - apply strictly_sorted_le, filter_seq_sorted.
  - rewrite <- (hits_of_windows _
                  (fun i => Py.slice_step t (Some (Z.of_nat i))
                                          (Z.of_nat i + (1 + ival * (k - 1))) ival)).
    apply Permutation_map, filter_Permutation, index_Permutation.
Qed.

(** X9.  For [k >= 1] and [ival >= 1] the index built by
    [SubseqIndex.__init__] has one entry for every offset of
    [range(len(t) - span + 1)] and no other: its offsets are a
    permutation of that range, every subsequence in it has exactly [k]
    symbols, and its window lies inside the text. *)
Theorem subseq_index_entries (t : Py.str) (k ival : Z) :
  (1 <= k)%Z -> (1 <= ival)%Z ->
  let self := SubseqIndex_init t k ival in
  length (si_index self) = Z.to_nat (Z.of_nat (length t) - si_span self + 1)
  /\ map snd (si_index self) ≡ₚ Py.range (Z.of_nat (length t) - si_span self + 1)
  /\ Forall (fun e => length e.1 = Z.to_nat k
                      /\ (Z.of_nat e.2 + si_span self <= Z.of_nat (length t))%Z)
            (si_index self).
Proof.
  intros Hk Hival self. pose proof (index_Permutation t k ival) as Hperm.
  fold self in Hperm. simpl si_span.
  split; [|split].
  - rewrite Hperm, length_map. unfold Py.range. apply length_seq.
  - rewrite Hperm, map_map. simpl. apply Permutation_refl'. apply map_id.
  - rewrite Hperm. apply List.Forall_forall. intros e He.
    apply in_map_iff in He as (i & <- & Hi). apply in_seq in Hi. simpl.
    assert (Hin : (Z.of_nat i + (1 + ival * (k - 1)) <= Z.of_nat (length t))%Z) by lia.
    split; [|assumption].
    rewrite slice_step_window by assumption. now rewrite length_map, length_seq.
Qed.

(** The index of ATATAT with [k = 2], [ival = 2] has four entries. *)
Lemma subseq_index_entries_witness :
  length (si_index (SubseqIndex_init (Py.lit "ATATAT") 2 2)) = 4.
Proof.
  destruct (subseq_index_entries (Py.lit "ATATAT") 2 2) as (Hlen & _); [lia|lia|].
  rewrite Hlen. reflexivity.
Defined.

(** The length of [p[:span:ival]] for a pattern of at most
    [ival * (k - 1)] symbols is below [k]. *)
Lemma slice_step_short (p : Py.str) (k ival : Z) :
  (1 <= k)%Z -> (1 <= ival)%Z ->
  (Z.of_nat (length p) <= ival * (k - 1))%Z ->
  length (Py.slice_step p None (1 + ival * (k - 1)) ival) < Z.to_nat k.
Proof.
  intros Hk Hival Hshort. unfold Py.slice_step, Py.adjust_index.
  rewrite length_map, length_seq.
  destruct (Z.ltb_spec (1 + ival * (k - 1)) 0); [nia|].
  rewrite Z.min_r by lia.
  destruct (Z.ltb_spec 0 (Z.of_nat (length p))); [|lia].
  assert (Hdiv : ((Z.of_nat (length p) - 0 - 1) / ival < k - 1)%Z).
  { apply Z.div_lt_upper_bound; lia. }
  assert (Hpos : (0 <= (Z.of_nat (length p) - 0 - 1) / ival)%Z).
  { apply Z.div_pos; lia. }
  lia.
Qed.

(** X10.  For [k >= 1] and [ival >= 1], [SubseqIndex.get_hits] returns
    no hit when the text is shorter than the span, and none when the
    pattern has at most [ival * (k - 1)] symbols, too few for a
    subsequence of [k]: neither case is reported as an error. *)
Theorem get_hits_too_short (t p : Py.str) (k ival : Z) :
  (1 <= k)%Z -> (1 <= ival)%Z ->
  (Z.of_nat (length t) < 1 + ival * (k - 1)
   \/ Z.of_nat (length p) <= ival * (k - 1))%Z ->
  get_hits (SubseqIndex_init t k ival) p = [].
Proof.
  intros Hk Hival Hshort. rewrite get_hits_filter.
  destruct Hshort as [Ht|Hp].
  - unfold Py.range. replace (Z.to_nat _) with 0 by lia. reflexivity.
  - apply filter_none. intros i Hi. apply in_seq in Hi.
    apply bool_decide_eq_false. intros Heq.
    pose proof (slice_step_short p k ival Hk Hival Hp) as Hlen.
    rewrite <- Heq, slice_step_window in Hlen by lia.
    rewrite length_map, length_seq in Hlen. lia.
Qed.

(** The pattern AT has too few symbols for [k = 2], [ival = 2]. *)
Lemma get_hits_too_short_witness :
  get_hits (SubseqIndex_init (Py.lit "ATATAT") 2 2) (Py.lit "AT") = [].
Proof.
  apply get_hits_too_short; [lia|lia|]. right. simpl. lia.
Defined.

(** [p[:span:ival]] only reads the first [span] symbols of [p]. *)
Lemma slice_step_prefix (p : Py.str) (span ival : Z) :
  (1 <= span)%Z -> (1 <= ival)%Z ->
  Py.slice_step (firstn (Z.to_nat span) p) None span ival
  = Py.slice_step p None span ival.
Proof.
  intros Hspan Hival. unfold Py.slice_step, Py.adjust_index.
  rewrite List.length_firstn.
  destruct (Z.ltb_spec span 0); [lia|].
  replace (Z.min span (Z.of_nat (Nat.min (Z.to_nat span) (length p))))
    with (Z.min span (Z.of_nat (length p))) by lia.
  set (b := Z.min span (Z.of_nat (length p))).
  apply map_ext_in. intros j Hj. apply in_seq in Hj.
  unfold Py.index. rewrite List.nth_firstn.
  destruct (Z.ltb_spec 0 b) as [Hb|Hb]; [|simpl in Hj; lia].
  assert (Hdiv : (ival * ((b - 0 - 1) / ival) <= b - 0 - 1)%Z).
  { apply Z.mul_div_le. lia. }
  assert (Hpos : (0 <= (b - 0 - 1) / ival)%Z) by (apply Z.div_pos; lia).
  assert (Hj' : (Z.of_nat j <= (b - 0 - 1) / ival)%Z) by lia.
  assert (Hlt : (0 + Z.of_nat j * ival < span)%Z) by nia.
  replace (Z.to_nat (0 + Z.of_nat j * ival) <? Z.to_nat span) with true; [reflexivity|].
  symmetry. apply Nat.ltb_lt. lia.
Qed.

(** X11.  For [k >= 1] and [ival >= 1], [SubseqIndex.get_hits] looks at
    the first [span] symbols of its argument only: a pattern and its
    prefix of length [span] have the same hits, so the hits of a pattern
    are those of every pattern that starts with the same [span] symbols. *)
Theorem get_hits_first_span (t p : Py.str) (k ival : Z) :
  (1 <= k)%Z -> (1 <= ival)%Z ->
  let self := SubseqIndex_init t k ival in
  get_hits self p = get_hits self (firstn (Z.to_nat (si_span self)) p).
Proof.
  intros Hk Hival self. unfold get_hits. simpl si_span. simpl si_ival.
  rewrite slice_step_prefix; [reflexivity|nia|assumption].
Qed.

(** ATATT and its first three symbols ATA, with [k = 2], [ival = 2]. *)
Lemma get_hits_first_span_witness :
  get_hits (SubseqIndex_init (Py.lit "ATATAT") 2 2) (Py.lit "ATATT")
  = get_hits (SubseqIndex_init (Py.lit "ATATAT") 2 2) (Py.lit "ATA").
Proof.
  apply (get_hits_first_span (Py.lit "ATATAT") (Py.lit "ATATT") 2 2); lia.
Defined.

(** ** The empty pattern *)

Section EmptyPattern.

Variables (p_bm : BoyerMoorePreprocessing) (t : Py.str).

Lemma empty_pattern_round (n : nat) :
  query_body [] p_bm t (empty_pattern_state (Nat.max 1 (match_skip p_bm)) n)
  = empty_pattern_state (Nat.max 1 (match_skip p_bm)) (S n).
Proof.
  unfold query_body, align, empty_pattern_state. simpl compare_right_to_left.
  cbn [a_shift a_occurrences a_skipped a_comparisons occurrences skipped_alignments
       num_char_comparisons alignment_start_idx num_alignments_tried].
  rewrite seq_S, map_app. simpl map. f_equal; lia.
Qed.

Lemma empty_pattern_cond (step n : nat) :
  1 <= step ->
  loop_cond [] t (empty_pattern_state step n) = true <-> n < length t / step + 1.
Proof.
  intros Hstep. unfold loop_cond, empty_pattern_state. simpl.
  rewrite Z.leb_le. split.
  - intros H. assert (Hn : n * step <= length t) by lia.
    assert (n <= length t / step); [|lia].
    apply Nat.div_le_lower_bound; lia.
  - intros H. assert (Hn : n <= length t / step) by lia.
    pose proof (Nat.Div0.mul_div_le (length t) step). nia.
Qed.

Lemma empty_pattern_loop (fuel n : nat) :
  n <= length t / Nat.max 1 (match_skip p_bm) + 1 ->
  length t / Nat.max 1 (match_skip p_bm) + 1 - n <= fuel ->
  while_loop [] t (query_body [] p_bm t) fuel
             (empty_pattern_state (Nat.max 1 (match_skip p_bm)) n)
  = empty_pattern_state (Nat.max 1 (match_skip p_bm))
                        (length t / Nat.max 1 (match_skip p_bm) + 1).
Proof.
  set (step := Nat.max 1 (match_skip p_bm)).
  assert (Hstep : 1 <= step) by (unfold step; lia).
  revert n. induction fuel as [|fuel IH]; intros n Hn Hfuel; simpl.
  - f_equal. lia.
  - destruct (loop_cond [] t (empty_pattern_state step n)) eqn:Hc.
    + apply (empty_pattern_cond step n Hstep) in Hc.
      unfold step at 1. rewrite empty_pattern_round. apply IH; lia.
    + f_equal. apply not_true_iff_false in Hc.
      rewrite (empty_pattern_cond step n Hstep) in Hc. lia.
Qed.

End EmptyPattern.

(** X12.  With the empty pattern [BoyerMooreExact.query] does not fail:
    every alignment it visits is a full match without a comparison, so
    with [step = max(1, match_skip())] it reports the offsets [0],
    [step], [2*step], ... up to [len(t)], tries as many alignments and
    compares no character. *)
Theorem query_empty_pattern (p_bm : BoyerMoorePreprocessing) (t : Py.str) :
  let step := Nat.max 1 (match_skip p_bm) in
  query {| bme_p := []; bme_p_bm := p_bm |} t
  = (map (fun i => i * step) (seq 0 (length t / step + 1)), length t / step + 1, 0).
Proof.
  intros step. unfold query, query_result, query_scan. simpl bme_p. simpl bme_p_bm.
  change init_state with (empty_pattern_state step 0).
  unfold step. rewrite empty_pattern_loop; [reflexivity|lia|].
  assert (length t / Nat.max 1 (match_skip p_bm) <= length t); [|lia].
  apply Nat.Div0.div_le_upper_bound. nia.
Qed.

(** ** Exact occurrences and the index seeds *)

Lemma seed_check_mono (p t : Py.str) (start : nat) (s : seed_state) (h x : nat) :
  x ∈ ss_all_matches s -> x ∈ ss_all_matches (seed_check p t start s h).
Proof.
  intros Hx. unfold seed_check. destruct (_ || _); simpl; [assumption|].
  destruct (_ <=? h); simpl; [now apply elem_of_union_r|assumption].
Qed.

Lemma fold_seed_check_mono (p t : Py.str) (start : nat) (hits : list nat)
      (s : seed_state) (x : nat) :
  x ∈ ss_all_matches s ->
  x ∈ ss_all_matches (fold_left (seed_check p t start) hits s).
Proof.
  revert s. induction hits as [|h hits IH]; intros s Hx; simpl; [assumption|].
  apply IH. now apply seed_check_mono.
Qed.

Lemma fold_seed_round_mono (p t : Py.str) (p_idx : SubseqIndex) (rounds : list nat)
      (s : seed_state) (x : nat) :
  x ∈ ss_all_matches s ->
  x ∈ ss_all_matches (fold_left (seed_round p t p_idx) rounds s).
Proof.
  revert s. induction rounds as [|i rounds IH]; intros s Hx; simpl; [assumption|].
  apply IH. unfold seed_round. now apply fold_seed_check_mono.
Qed.

(** A hit of the first seed at which the pattern occurs is accepted. *)
Lemma seed_check_accepts_exact (p t : Py.str) (s : seed_state) (o : nat) :
  o + length p <= length t -> hamming_at p t o = 0 ->
  o ∈ ss_all_matches (seed_check p t 0 s o).
Proof.
  intros Hin Hzero. unfold seed_check.
  replace (o <? 0) with false by reflexivity.
  rewrite Nat.sub_0_r.
  replace (length t <? o + length p) with false by (symmetry; apply Nat.ltb_ge; lia).
  simpl orb. cbv iota.
  rewrite (count_mismatches_le p t o o (seq 0 (length p)) 0);
    [|unfold hamming_at in Hzero; lia].
  unfold hamming_at in Hzero. rewrite Hzero. simpl.
  apply elem_of_union_l, elem_of_singleton. reflexivity.
Qed.

Lemma fold_seed_check_accepts_exact (p t : Py.str) (hits : list nat)
      (s : seed_state) (o : nat) :
  o + length p <= length t -> hamming_at p t o = 0 -> In o hits ->
  o ∈ ss_all_matches (fold_left (seed_check p t 0) hits s).
Proof.
  intros Hin Hzero. revert s. induction hits as [|h hits IH]; intros s; simpl; [tauto|].
  intros [->|Ho]; [|now apply IH].
  apply fold_seed_check_mono. now apply seed_check_accepts_exact.
Qed.

Lemma slice_step_from_start (s : Py.str) (stop step : Z) :
  Py.slice_step s None stop step = Py.slice_step s (Some 0%Z) stop step.
Proof.
  unfold Py.slice_step, Py.adjust_index. simpl (0 <? 0)%Z. cbv iota.
  now rewrite (Z.min_l 0 (Z.of_nat (length s))) by lia.
Qed.

(** Where the pattern occurs, its first subsequence is the window of the
    text. *)
Lemma window_of_occurrence (p t : Py.str) (k ival : Z) (o : nat) :
  (1 <= k)%Z -> (1 <= ival)%Z ->
  (1 + ival * (k - 1) <= Z.of_nat (length p))%Z ->
  o + length p <= length t -> hamming_at p t o = 0 ->
  Py.slice_step t (Some (Z.of_nat o)) (Z.of_nat o + (1 + ival * (k - 1))) ival
  = Py.slice_step p None (1 + ival * (k - 1)) ival.
Proof.
  intros Hk Hival Hspan Hin Hzero.
  rewrite slice_step_from_start.
  change (Py.slice_step p (Some 0%Z) (1 + ival * (k - 1)) ival)
    with (Py.slice_step p (Some (Z.of_nat 0)) (Z.of_nat 0 + (1 + ival * (k - 1))) ival).
  rewrite !slice_step_window by (simpl; lia).
  apply map_ext_in. intros j Hj. apply in_seq in Hj.
  assert (Hocc : occurs_at p t o = true).
  { rewrite <- hamming_zero_occurs by assumption. apply Nat.leb_le. lia. }
  rewrite (occurs_at_iff p t o Hin) in Hocc. simpl. symmetry. apply Hocc.
  assert (Hj' : (Z.of_nat j * ival <= ival * (k - 1))%Z) by nia.
  assert (Heq : Z.of_nat (j * Z.to_nat ival) = (Z.of_nat j * ival)%Z).
  { rewrite Nat2Z.inj_mul, Z2Nat.id by lia. reflexivity. }
  lia.
Qed.

(** X13.  For [k >= 1], [ival >= 1] and a pattern at least as long as
    the span, [query_subseq_index] reports every offset at which the
    pattern occurs in the text without a mismatch, for every budget: the
    first seed finds the window, and a count of 0 passes the comparison
    with the index hit. *)
Theorem query_subseq_index_finds_exact
  (p t : Py.str) (m : nat) (ival k : Z) (o : nat) :
  (1 <= k)%Z -> (1 <= ival)%Z ->
  (1 + ival * (k - 1) <= Z.of_nat (length p))%Z ->
  o + length p <= length t -> hamming_at p t o = 0 ->
  o ∈ (query_subseq_index p t m ival (Some k)).1.
Proof.
  intros Hk Hival Hspan Hin Hzero. unfold query_subseq_index.
  destruct (Z.eqb_spec k 0) as [|_]; [lia|]. simpl.
  apply (proj2 (proj2 (sorted_spec _))).
  rewrite range_succ. simpl. apply fold_seed_round_mono.
  unfold seed_round, si_get_occurrences, Py.suffix_from. simpl skipn.
  apply fold_seed_check_accepts_exact; [assumption|assumption|].
  rewrite get_hits_filter. apply filter_In. split.
  - apply in_seq. lia.
  - apply bool_decide_eq_true. now apply window_of_occurrence.
Qed.

(** GATTACA occurs in GATTTACAGATTACAAA at offset 8; the index has
    [k = 3], [ival = 2]. *)
Lemma query_subseq_index_finds_exact_witness :
  8 ∈ (query_subseq_index (Py.lit "GATTACA") (Py.lit "GATTTACAGATTACAAA") 1 2 (Some 3%Z)).1.
Proof.
  apply query_subseq_index_finds_exact; try lia.
  - simpl. lia.
  - simpl. lia.
  - vm_compute. reflexivity.
Defined.
